(** * meilisync-admin: the Runner / Scheduler subsystem

    A shallow embedding of [meilisync_admin/scheduler.py] (classes [Runner]
    and [Scheduler]) and of the part of [meilisync_admin/models.py] it reads,
    together with the properties of the design document that concern them.

    Python dictionaries are finite maps ([gmap]); the coroutines of a Runner
    are functions in a state-and-exception monad over the Runner's mutable
    fields and the collaborators' state; every call to a collaborator (queue,
    index client, progress store, logger) is recorded, in order, in a trace. *)

From stdpp Require Import gmap strings list fin_maps.
From Stdlib Require Import ZArith Lia Sorted.

Local Open Scope Z_scope.

(** ** Data model *)

(** [meilisync.enums.EventType]; its members are written [EventType.create],
    [EventType.update], [EventType.delete], as in the source. *)
Module EventType.
Inductive t := create | update | delete.
End EventType.

#[global] Instance EventType_eq_dec : EqDecision EventType.t.
Proof. solve_decision. Defined.

#[global] Instance EventType_countable : Countable EventType.t.
Proof.
  refine (inj_countable'
            (fun t => match t with
                      | EventType.create => 0%nat
                      | EventType.update => 1%nat
                      | EventType.delete => 2%nat
                      end)
            (fun n => match n with
                      | 0%nat => EventType.create
                      | 1%nat => EventType.update
                      | _ => EventType.delete
                      end) _).
  intros []; reflexivity.
Defined.

(** The exceptions a Runner can meet.  [KeyError] and [TypeError] are raised
    by the interpreter itself, [IndexError] stands for whatever the index
    client raises, [StoreError] for whatever the progress store raises. *)
Inductive exn := KeyError | TypeError | IndexError | StoreError.

(** [models.Source]: primary key, label, connector type, connection. *)
Record Source := {
  source_pk : Z;
  source_label : string;
  source_type : string;
  source_connection : string
}.

(** The index client [sync.meili_client] of a sync, named by the server it
    talks to. *)
Record Meili := { api_url : string }.

#[global] Instance Meili_eq_dec : EqDecision Meili.
Proof. solve_decision. Defined.

(** The server record a [Sync] points to through [sync.meilisearch]; the
    scheduler reads its two batching parameters, both nullable integers. *)
Record Meilisearch := {
  insert_size : option Z;
  insert_interval : option Z
}.

(** Python truthiness of a nullable integer: [None] and [0] are falsy. *)
Definition truthy (x : option Z) : bool :=
  match x with
  | None => false
  | Some n => negb (n =? 0)
  end.

(** [meilisync.settings.Sync], as [Runner.__aenter__] builds it: it is the
    key of [collections_map] and [meili_map]. *)
Record SyncSettings := {
  ss_table : string;
  ss_pk : string;
  ss_full : bool;
  ss_index : string;
  ss_fields : option string
}.

#[global] Instance SyncSettings_eq_dec : EqDecision SyncSettings.
Proof. solve_decision. Defined.

#[global] Instance SyncSettings_countable : Countable SyncSettings.
Proof.
  refine (inj_countable'
            (fun s => (ss_table s, ss_pk s, ss_full s, ss_index s, ss_fields s))
            (fun t => match t with
                      | (a, b, c, d, e) =>
                          {| ss_table := a; ss_pk := b; ss_full := c;
                             ss_index := d; ss_fields := e |}
                      end) _).
  intros []; reflexivity.
Defined.

(** [models.Sync], with the two attributes the scheduler reads besides the
    columns: the index client [meili_client] and the relation [meilisearch]. *)
Record Sync := {
  sync_pk : Z;
  sync_source : Z;
  sync_full_sync : bool;
  sync_table : string;
  sync_index : string;
  sync_primary_key : string;
  sync_enabled : bool;
  sync_fields : option string;
  sync_meili_client : Meili;
  sync_meilisearch : Meilisearch
}.

(** ** Scheduler: the registry of Runner tasks

    A task is named by the order in which [asyncio.ensure_future] created it.
    [spawned] lists, oldest first, which source each task runs and with which
    [reset_progress]; [cancelled] lists the tasks [Task.cancel] was called on;
    [tasks] is the class attribute [Scheduler._tasks]. *)
Record Scheduler := {
  tasks : gmap Z nat;
  spawned : list (Z * bool);
  cancelled : list nat
}.

Definition Scheduler_init : Scheduler :=
  {| tasks := ∅; spawned := []; cancelled := [] |}.

(** [cls._tasks[source.pk] = asyncio.ensure_future(cls._start_source(source, reset))]. *)
Definition track_new (source : Source) (reset_progress : bool) (sc : Scheduler) : Scheduler :=
  {| tasks := <[source_pk source := length (spawned sc)]> (tasks sc);
     spawned := spawned sc ++ [(source_pk source, reset_progress)];
     cancelled := cancelled sc |}.

(** [Scheduler.startup]: [sources] is the result of [Source.all()]. *)
Definition startup (sources : list Source) (sc : Scheduler) : Scheduler :=
  foldl (fun acc source => track_new source false acc) sc sources.

(** [Scheduler.remove_source]. *)
Definition remove_source (source_id : Z) (sc : Scheduler) : Scheduler :=
  match tasks sc !! source_id with
  | Some t =>
      {| tasks := delete source_id (tasks sc);
         spawned := spawned sc;
         cancelled := cancelled sc ++ [t] |}
  | None => sc
  end.

(** [Scheduler.restart_source]. *)
Definition restart_source (source : Source) (reset_progress : bool) (sc : Scheduler) : Scheduler :=
  track_new source reset_progress (remove_source (source_pk source) sc).

(** [Scheduler.shutdown]: every tracked task is cancelled, none is untracked. *)
Definition shutdown (sc : Scheduler) : Scheduler :=
  {| tasks := tasks sc;
     spawned := spawned sc;
     cancelled := cancelled sc ++ (map_to_list (tasks sc)).*2 |}.

(** The tasks that were created and not cancelled. *)
Definition running (sc : Scheduler) : list nat :=
  filter (fun t => t ∉ cancelled sc) (seq 0 (length (spawned sc))).

(** The only [enabled] flag of the data model is on [Sync]: a source counts
    as enabled when one of its syncs is. *)
Definition source_enabled (syncs : list Sync) (source : Source) : bool :=
  existsb (fun y => sync_enabled y && bool_decide (sync_source y = source_pk source)) syncs.

(** The design document's reading of [startup]: the tracked sources are the
    enabled ones, and only they got a Runner. *)
Definition startup_tracks_enabled_only (syncs : list Sync) (sources : list Source) : Prop :=
  let sc := startup sources Scheduler_init in
  forall source, source ∈ sources ->
    (is_Some (tasks sc !! source_pk source) <-> source_enabled syncs source = true).

(** ** Runner: events, collaborators, state *)

(** [meilisync.schemas]: a [ProgressEvent] carries only [progress]; an
    [Event] is a [ProgressEvent] with a type, a table and a payload. *)
Record Event (Progress Data : Type) := {
  ev_type : EventType.t;
  ev_table : string;
  ev_data : Data;
  ev_progress : Progress
}.
Arguments ev_type {Progress Data} _.
Arguments ev_table {Progress Data} _.
Arguments ev_data {Progress Data} _.
Arguments ev_progress {Progress Data} _.

(** What [queue.get()] returns: [isinstance(event, Event)] or not. *)
Inductive QueueItem (Progress Data : Type) :=
| QEvent (e : Event Progress Data)
| QProgress (p : Progress).
Arguments QEvent {Progress Data} e.
Arguments QProgress {Progress Data} p.

(** The collaborators' code is not part of the repository; the Runner is
    modelled over any implementation of the calls it makes.  [Index] is the
    state of the search servers.  A result [None] means the call raises. *)
Class Collaborators (Progress Data Row Index : Type) := {
  (** [Meili.handle_event(event, sync)] *)
  handle_event : Meili -> Event Progress Data -> SyncSettings -> Index -> option Index;
  (** [Meili.index_exists(name)] *)
  index_exists : Meili -> string -> Index -> option bool;
  (** [Meili.add_full_data(index, pk, items)] *)
  add_full_data : Meili -> string -> string -> list Row -> Index -> option Index;
  (** the chunks [source_obj.get_full_data(sync, size)] yields *)
  get_full_data : SyncSettings -> Z -> list (list Row);
  (** the property [index_name] of a sync setting *)
  index_name : SyncSettings -> string;
  (** whether [progress.set] accepts this marker ([false]: it raises) *)
  progress_set_ok : Progress -> bool
}.

Section Runner.

Context {Progress Data Row Index : Type}.
Context `{!Collaborators Progress Data Row Index}.

#[local] Abbreviation Event := (Event Progress Data).
#[local] Abbreviation QueueItem := (QueueItem Progress Data).

(** Modelled from the spec: the class [EventCollection] (the design
    document's EventBatch), "an ordered sequence of events not yet applied to
    the index, and a count".  [add_event] appends, [size] is the count. *)
#[local] Abbreviation EventCollection := (list (SyncSettings * Event)).

Definition add_event (setting : SyncSettings) (event : Event) (c : EventCollection) : EventCollection :=
  c ++ [(setting, event)].

Definition size (c : EventCollection) : Z := Z.of_nat (length c).

(** The calls a Runner makes to its collaborators, with their result. *)
Inductive Call :=
| QueueGet (i : QueueItem)
| HandleEvent (m : Meili) (e : Event) (s : SyncSettings) (ok : bool)
| HandleEvents (m : Meili) (c : EventCollection) (ok : bool)
| ProgressSet (p : Progress) (ok : bool)
| ProgressReset
| GetSource (p : option Progress) (tables : list string)
| IndexExists (m : Meili) (name : string) (r : option bool)
| GetFullData (s : SyncSettings) (chunk : Z)
| AddFullData (m : Meili) (name pk : string) (items : list Row) (ok : bool)
| LogInfo (table : string) (count : Z)
| LogError (e : exn)
| EnsureFuture (m : Meili) (s : SyncSettings) (interval : Z).

(** The fields of a [Runner] object, followed by the state of its
    collaborators: the search servers, the progress store, and the calls made
    so far (oldest first). *)
Record State := {
  current_progress : option Progress;
  stats : gmap Z (gmap EventType.t Z);
  collections_map : gmap SyncSettings EventCollection;
  tables_sync_settings_map : gmap string (list (SyncSettings * Sync));
  tables_map_reverse : gmap Z string;
  meili_map : gmap SyncSettings (Meili * option Z);
  sync_settings : list SyncSettings;
  indexes : Index;
  durable : option Progress;
  trace : list Call
}.

Definition set_current_progress (p : option Progress) (st : State) : State :=
  {| current_progress := p; stats := stats st;
     collections_map := collections_map st;
     tables_sync_settings_map := tables_sync_settings_map st;
     tables_map_reverse := tables_map_reverse st; meili_map := meili_map st;
     sync_settings := sync_settings st; indexes := indexes st;
     durable := durable st; trace := trace st |}.

Definition set_stats (x : gmap Z (gmap EventType.t Z)) (st : State) : State :=
  {| current_progress := current_progress st; stats := x;
     collections_map := collections_map st;
     tables_sync_settings_map := tables_sync_settings_map st;
     tables_map_reverse := tables_map_reverse st; meili_map := meili_map st;
     sync_settings := sync_settings st; indexes := indexes st;
     durable := durable st; trace := trace st |}.

Definition set_collections_map (x : gmap SyncSettings EventCollection) (st : State) : State :=
  {| current_progress := current_progress st; stats := stats st;
     collections_map := x;
     tables_sync_settings_map := tables_sync_settings_map st;
     tables_map_reverse := tables_map_reverse st; meili_map := meili_map st;
     sync_settings := sync_settings st; indexes := indexes st;
     durable := durable st; trace := trace st |}.

Definition set_indexes (x : Index) (st : State) : State :=
  {| current_progress := current_progress st; stats := stats st;
     collections_map := collections_map st;
     tables_sync_settings_map := tables_sync_settings_map st;
     tables_map_reverse := tables_map_reverse st; meili_map := meili_map st;
     sync_settings := sync_settings st; indexes := x;
     durable := durable st; trace := trace st |}.

Definition set_durable (x : option Progress) (st : State) : State :=
  {| current_progress := current_progress st; stats := stats st;
     collections_map := collections_map st;
     tables_sync_settings_map := tables_sync_settings_map st;
     tables_map_reverse := tables_map_reverse st; meili_map := meili_map st;
     sync_settings := sync_settings st; indexes := indexes st;
     durable := x; trace := trace st |}.

(** Record one more call. *)
Definition emit (c : Call) (st : State) : State :=
  {| current_progress := current_progress st; stats := stats st;
     collections_map := collections_map st;
     tables_sync_settings_map := tables_sync_settings_map st;
     tables_map_reverse := tables_map_reverse st; meili_map := meili_map st;
     sync_settings := sync_settings st; indexes := indexes st;
     durable := durable st; trace := trace st ++ [c] |}.

(** ** The monad of a coroutine: state, and Python exceptions *)

Inductive outcome (A : Type) :=
| Ok (a : A) (st : State)
| Raise (e : exn) (st : State).
Arguments Ok {A} a st.
Arguments Raise {A} e st.

Definition M (A : Type) : Type := State -> outcome A.

#[global] Instance M_ret : MRet M := fun A a st => Ok a st.

#[global] Instance M_bind : MBind M := fun A B k c st =>
  match c st with
  | Ok a st' => k a st'
  | Raise e st' => Raise e st'
  end.

Definition raise {A : Type} (e : exn) : M A := fun st => Raise e st.

Definition gets {A : Type} (f : State -> A) : M A := fun st => Ok (f st) st.

Definition modify (f : State -> State) : M unit := fun st => Ok tt (f st).

(** [d[k]] on a dictionary field: [KeyError] when the key is absent. *)
Definition getitem {K V : Type} `{Countable K} (d : State -> gmap K V) (k : K) : M V :=
  fun st => match d st !! k with
            | Some v => Ok v st
            | None => Raise KeyError st
            end.

(** [for x in l: f(x)], left at the first exception. *)
Fixpoint for_each {A : Type} (l : list A) (f : A -> M unit) : M unit :=
  match l with
  | [] => mret tt
  | x :: l' => f x ;; for_each l' f
  end.

(** The state a coroutine leaves, however it ends. *)
Definition final {A : Type} (o : outcome A) : State :=
  match o with
  | Ok _ st => st
  | Raise _ st => st
  end.

Definition raised {A : Type} (o : outcome A) : option exn :=
  match o with
  | Ok _ _ => None
  | Raise e _ => Some e
  end.

(** ** Runner: the coroutines *)

(** [Runner._save_progress]: [self.progress.set] is called with the
    dictionary [self.current_progress] unpacked into keyword arguments;
    unpacking [None] is a [TypeError]. *)
Definition save_progress : M unit := fun st =>
  match current_progress st with
  | None => Raise TypeError st
  | Some p =>
      if progress_set_ok p
      then Ok tt (emit (ProgressSet p true) (set_durable (Some p) st))
      else Raise StoreError (emit (ProgressSet p false) st)
  end.

(** [await m.handle_event(event, setting)]. *)
Definition call_handle_event (m : Meili) (event : Event) (setting : SyncSettings) : M unit :=
  fun st =>
    match handle_event m event setting (indexes st) with
    | Some ix => Ok tt (emit (HandleEvent m event setting true) (set_indexes ix st))
    | None => Raise IndexError (emit (HandleEvent m event setting false) st)
    end.

(** Modelled from the spec: [Meili.handle_events(batch)], "apply a batch in
    order, then clear it".  The events are applied one after the other as
    [handle_event] applies them; at the first one that raises the rest is left
    unapplied.  The result is the index state reached and whether the whole
    batch went through. *)
Fixpoint apply_batch (m : Meili) (c : EventCollection) (ix : Index) : Index * bool :=
  match c with
  | [] => (ix, true)
  | (setting, event) :: c' =>
      match handle_event m event setting ix with
      | Some ix' => apply_batch m c' ix'
      | None => (ix, false)
      end
  end.

(** [await m.handle_events(c)], where [c] is the collection object stored in
    [collections_map] under [key]: the batch is cleared only once applied. *)
Definition call_handle_events (m : Meili) (key : SyncSettings) : M unit :=
  fun st =>
    let c := default [] (collections_map st !! key) in
    match apply_batch m c (indexes st) with
    | (ix, true) =>
        Ok tt (emit (HandleEvents m c true)
                 (set_collections_map (<[key := []]> (collections_map st))
                    (set_indexes ix st)))
    | (ix, false) =>
        Raise IndexError (emit (HandleEvents m c false) (set_indexes ix st))
    end.

(** [self.stats.setdefault(pk, {}).setdefault(type, 0)] and
    [self.stats[pk][type] += 1]. *)
Definition stats_incr (pk : Z) (ty : EventType.t)
    (x : gmap Z (gmap EventType.t Z)) : gmap Z (gmap EventType.t Z) :=
  let inner := default ∅ (x !! pk) in
  <[pk := <[ty := default 0 (inner !! ty) + 1]> inner]> x.

(** The counter [self.stats[pk][type]], [0] when it was never set. *)
Definition stats_count (pk : Z) (ty : EventType.t) (st : State) : Z :=
  default 0 (default ∅ (stats st !! pk) !! ty).

(** [collection.size >= meilisearch.insert_size]: comparing an [int] with
    [None] is a [TypeError]. *)
Definition size_reached (c : EventCollection) (threshold : option Z) : M bool :=
  match threshold with
  | None => raise TypeError
  | Some n => mret (n <=? size c)
  end.

(** The body of [for setting, sync_model in ss_list] in [sync_data]
    (lines 140 to 152). *)
Definition process_target (event : Event) (target : SyncSettings * Sync) : M unit :=
  let '(setting, sync_model) := target in
  '(m, _) ← getitem meili_map setting;
  let meilisearch := sync_meilisearch sync_model in
  modify (fun st => set_stats (stats_incr (sync_pk sync_model) (ev_type event) (stats st)) st);;
  if negb (truthy (insert_size meilisearch)) && negb (truthy (insert_interval meilisearch))
  then
    call_handle_event m event setting;;
    save_progress
  else
    collection ← getitem collections_map setting;
    modify (fun st =>
      set_collections_map (<[setting := add_event setting event collection]> (collections_map st)) st);;
    reached ← size_reached (add_event setting event collection) (insert_size meilisearch);
    if reached : bool
    then
      call_handle_events m setting;;
      save_progress
    else mret tt.

Definition item_progress (i : QueueItem) : Progress :=
  match i with
  | QEvent e => ev_progress e
  | QProgress p => p
  end.

(** One turn of the [while True] of [Runner.sync_data] (lines 130 to 152),
    for the item [queue.get()] returned. *)
Definition sync_data_iter (i : QueueItem) : M unit :=
  modify (emit (QueueGet i));;
  modify (set_current_progress (Some (item_progress i)));;
  match i with
  | QProgress _ => save_progress
  | QEvent event =>
      ss_list ← gets (fun st => tables_sync_settings_map st !! ev_table event);
      match ss_list with
      | None | Some [] => mret tt
      | Some ss_list => for_each ss_list (process_target event)
      end
  end.

(** The state after the dequeue of lines 130 and 131. *)
Definition dequeued (i : QueueItem) (st : State) : State :=
  set_current_progress (Some (item_progress i)) (emit (QueueGet i) st).

(** [Runner.sync_data] over the items the queue delivers: an exception leaves
    the loop. *)
Definition sync_data (items : list QueueItem) : M unit :=
  for_each items sync_data_iter.

(** One turn of the [while True] of [Runner.start_interval], after the sleep
    (lines 167 to 172): whatever is raised is logged, and the loop goes on. *)
Definition interval_tick (m : Meili) (key : SyncSettings) : M unit := fun st =>
  match (call_handle_events m key ;; save_progress) st with
  | Ok _ st' => Ok tt st'
  | Raise e st' => Ok tt (emit (LogError e) st')
  end.

(** What the event loop runs next: a turn of the dispatch loop, for the next
    queued item, or a turn of one flush timer.  Both hold [self.lock] around
    their writes, so turns do not overlap. *)
Inductive Step :=
| Dispatch (i : QueueItem)
| Tick (m : Meili) (key : SyncSettings).

Definition step (x : Step) : M unit :=
  match x with
  | Dispatch i => sync_data_iter i
  | Tick m key => interval_tick m key
  end.

Definition run (steps : list Step) : M unit := for_each steps step.

(** The queue items of a schedule, in order. *)
Definition dispatched (steps : list Step) : list QueueItem :=
  omap (fun x => match x with Dispatch i => Some i | Tick _ _ => None end) steps.

(** ** Runner: bootstrap *)

(** The object [Runner.__init__] builds, next to the collaborators' state it
    starts from. *)
Definition Runner_init (ix : Index) (stored : option Progress) : State :=
  {| current_progress := None; stats := ∅; collections_map := ∅;
     tables_sync_settings_map := ∅; tables_map_reverse := ∅; meili_map := ∅;
     sync_settings := []; indexes := ix; durable := stored; trace := [] |}.

(** The [SyncSettings] built from a [Sync] (lines 51 to 57). *)
Definition sync_setting_of (sync : Sync) : SyncSettings :=
  {| ss_table := sync_table sync;
     ss_pk := sync_primary_key sync;
     ss_full := sync_full_sync sync;
     ss_index := sync_index sync;
     ss_fields := sync_fields sync |}.

(** The body of [for sync in syncs] (lines 50 to 68). *)
Definition register_sync (st : State) (sync : Sync) : State :=
  let sync_setting := sync_setting_of sync in
  {| current_progress := current_progress st;
     stats := stats st;
     collections_map := <[sync_setting := []]> (collections_map st);
     tables_sync_settings_map :=
       <[sync_table sync :=
           default [] (tables_sync_settings_map st !! sync_table sync)
             ++ [(sync_setting, sync)]]> (tables_sync_settings_map st);
     tables_map_reverse := <[sync_pk sync := sync_table sync]> (tables_map_reverse st);
     meili_map :=
       <[sync_setting := (sync_meili_client sync, insert_interval (sync_meilisearch sync))]>
         (meili_map st);
     sync_settings := sync_settings st ++ [sync_setting];
     indexes := indexes st;
     durable := durable st;
     trace := trace st |}.

(** [await meili.index_exists(name)]. *)
Definition call_index_exists (m : Meili) (name : string) : M bool := fun st =>
  match index_exists m name (indexes st) with
  | Some b => Ok b (emit (IndexExists m name (Some b)) st)
  | None => Raise IndexError (emit (IndexExists m name None) st)
  end.

(** [await meili.add_full_data(index, pk, items)]. *)
Definition call_add_full_data (m : Meili) (name pk : string) (items : list Row) : M unit :=
  fun st =>
    match add_full_data m name pk items (indexes st) with
    | Some ix => Ok tt (emit (AddFullData m name pk items true) (set_indexes ix st))
    | None => Raise IndexError (emit (AddFullData m name pk items false) st)
    end.

(** The [async for items in ...] of lines 77 to 81, with its counter. *)
Fixpoint load_chunks (m : Meili) (ss : SyncSettings) (chunks : list (list Row))
    (count : Z) : M Z :=
  match chunks with
  | [] => mret count
  | items :: chunks' =>
      call_add_full_data m (index_name ss) (ss_pk ss) items;;
      load_chunks m ss chunks' (count + Z.of_nat (length items))
  end.

(** [insert_interval or 10000]. *)
Definition chunk_size (insert_interval : option Z) : Z :=
  if truthy insert_interval then default 0 insert_interval else 10000.

(** Lines 76 to 91: the full-data load of one target, and its summary. *)
Definition full_sync (m : Meili) (ss : SyncSettings) (insert_interval : option Z) : M unit :=
  modify (emit (GetFullData ss (chunk_size insert_interval)));;
  count ← load_chunks m ss (get_full_data ss (chunk_size insert_interval)) 0;
  modify (emit (LogInfo (ss_table ss) count)).

(** The body of [for ss in self.sync_settings] (lines 74 to 97).  [and] does
    not evaluate [index_exists] for a target without [full]. *)
Definition bootstrap_target (ss : SyncSettings) : M unit :=
  '(meili, insert_interval) ← getitem meili_map ss;
  (if ss_full ss
   then
     found ← call_index_exists meili (index_name ss);
     if found : bool then mret tt else full_sync meili ss insert_interval
   else mret tt);;
  if truthy insert_interval
  then
    _ ← getitem collections_map ss;
    modify (emit (EnsureFuture meili ss (default 0 insert_interval)))
  else mret tt.


(** The Runner a source's enabled syncs give, before any full-data load. *)
Definition configured (syncs : list Sync) (ix : Index) (stored : option Progress) : State :=
  set_current_progress stored (foldl register_sync (Runner_init ix stored) syncs).

(** ** The design document's properties, as it words them *)

(** The events a successful call handed to the index client for a target. *)
Definition applied_by (s : SyncSettings) (c : Call) : list Event :=
  match c with
  | HandleEvent _ e s' true => if decide (s' = s) then [e] else []
  | HandleEvents _ b true => (filter (fun x => x.1 = s) b).*2
  | _ => []
  end.

(** The events applied to target [s] so far, in order. *)
Definition applied (s : SyncSettings) (st : State) : list Event :=
  concat (map (applied_by s) (trace st)).

(** The events still buffered for target [s]. *)
Definition buffered (s : SyncSettings) (st : State) : list Event :=
  (default [] (collections_map st !! s)).*2.








(** The same sync without batching parameters: its events take the immediate
    path of [sync_data]. *)
Definition unbatch (sync : Sync) : Sync :=
  {| sync_pk := sync_pk sync; sync_source := sync_source sync;
     sync_full_sync := sync_full_sync sync; sync_table := sync_table sync;
     sync_index := sync_index sync; sync_primary_key := sync_primary_key sync;
     sync_enabled := sync_enabled sync; sync_fields := sync_fields sync;
     sync_meili_client := sync_meili_client sync;
     sync_meilisearch := {| insert_size := None; insert_interval := None |} |}.

(** The design document's equivalence, as it words it: the same events leave
    the same index state on the batched path, timers included, and on the
    immediate one. *)
Definition batching_transparent (sync : Sync) (ix : Index) (stored : option Progress)
    (steps : list Step) : Prop :=
  indexes (final (run steps (configured [sync] ix stored)))
  = indexes (final (sync_data (dispatched steps) (configured [unbatch sync] ix stored))).

(** The Runner [sB] of a single sync [y] and the Runner [sU] of the same
    sync without batching, after the same events: applying the batch [c] that
    [sB] still holds takes its indexes to those of [sU], and the events
    applied on one side are those applied or held on the other. *)
Record in_step (y : Sync) (sB sU : State) (c : EventCollection) : Prop := {
  tables_B : forall t,
    tables_sync_settings_map sB !! t
    = if decide (t = sync_table y) then Some [(sync_setting_of y, y)] else None;
  tables_U : forall t,
    tables_sync_settings_map sU !! t
    = if decide (t = sync_table y) then Some [(sync_setting_of y, unbatch y)] else None;
  meili_B : exists iv, meili_map sB !! sync_setting_of y = Some (sync_meili_client y, iv);
  meili_U : exists iv, meili_map sU !! sync_setting_of y = Some (sync_meili_client y, iv);
  batch_B : collections_map sB !! sync_setting_of y = Some c;
  batch_own : Forall (fun x => x.1 = sync_setting_of y) c;
  batch_none :
    negb (truthy (insert_size (sync_meilisearch y)))
      && negb (truthy (insert_interval (sync_meilisearch y))) = true -> c = [];
  batch_gap : apply_batch (sync_meili_client y) c (indexes sB) = (indexes sU, true);
  applied_gap : applied (sync_setting_of y) sB ++ c.*2 = applied (sync_setting_of y) sU
}.

(** The calls of a full-data load. *)
Definition is_full_load (c : Call) : bool :=
  match c with
  | GetFullData _ _ => true
  | AddFullData _ _ _ _ _ => true
  | _ => false
  end.

End Runner.

Arguments Ok {Progress Data Row Index A} a st.
Arguments Raise {Progress Data Row Index A} e st.

(** ** A concrete installation, to run the model on

    Markers are integers, payloads and rows are strings, and the search
    servers' state is the list of documents written so far, each with the
    server and the index it went to.  The index client refuses the payload
    ["bad"]; the progress store refuses negative markers. *)
Module Example.

Definition Index : Type := list (string * string * string).

#[global] Instance collaborators : Collaborators Z string string Index := {|
  handle_event m e s ix :=
    if decide (ev_data e = "bad")
    then None
    else Some (ix ++ [(api_url m, (if decide (ss_index s = "") then ss_table s else ss_index s), ev_data e)]);
  index_exists m name ix :=
    Some (existsb (fun d => bool_decide (d.1 = (api_url m, name))) ix);
  add_full_data m name pk items ix :=
    Some (ix ++ map (fun r => (api_url m, name, r)) items);
  get_full_data s chunk :=
    if decide (ss_table s = "users") then [["u1"; "u2"]; ["u3"]] else [];
  index_name s := if decide (ss_index s = "") then ss_table s else ss_index s;
  progress_set_ok p := 0 <=? p
|}.

Definition State : Type := @State Z string string Index.

Definition source1 : Source :=
  {| source_pk := 1; source_label := "db"; source_type := "mysql"; source_connection := "{}" |}.

Definition source2 : Source :=
  {| source_pk := 2; source_label := "idle"; source_type := "mysql"; source_connection := "{}" |}.

Definition server : Meili := {| api_url := "http://meili:7700" |}.

(** Batching parameters: by count, none, by time only, by count and time. *)
Definition by_size : Meilisearch := {| insert_size := Some 3; insert_interval := None |}.
Definition unbatched : Meilisearch := {| insert_size := None; insert_interval := None |}.
Definition by_interval : Meilisearch := {| insert_size := None; insert_interval := Some 5 |}.
Definition by_both : Meilisearch := {| insert_size := Some 3; insert_interval := Some 5 |}.

Definition sync_on (pk : Z) (table index : string) (full enabled : bool) (ms : Meilisearch) : Sync :=
  {| sync_pk := pk; sync_source := 1; sync_full_sync := full; sync_table := table;
     sync_index := index; sync_primary_key := "id"; sync_enabled := enabled;
     sync_fields := None; sync_meili_client := server; sync_meilisearch := ms |}.

Definition target_a : Sync := sync_on 10 "users" "users_a" false true by_size.
Definition target_b : Sync := sync_on 11 "users" "users_b" false true unbatched.
Definition target_c : Sync := sync_on 12 "users" "users_c" false true by_interval.
Definition target_d : Sync := sync_on 13 "users" "users_d" false true by_both.
Definition target_f : Sync := sync_on 15 "users" "users" true true unbatched.
Definition target_off : Sync := sync_on 16 "items" "items" false false unbatched.

Definition ev (n : Z) (table data : string) : Event Z string :=
  {| ev_type := EventType.create; ev_table := table; ev_data := data; ev_progress := n |}.



End Example.

(** * Further parts of the code *)

(** ** Scheduler: sequences of administrative calls *)

(** The calls that start or replace Runners: [startup], [remove_source] and
    [restart_source] ([shutdown] ends the process and is left out). *)
Inductive SchedulerOp :=
| OpStartup (sources : list Source)
| OpRemove (source_id : Z)
| OpRestart (source : Source) (reset_progress : bool).

Definition apply_op (sc : Scheduler) (op : SchedulerOp) : Scheduler :=
  match op with
  | OpStartup sources => startup sources sc
  | OpRemove source_id => remove_source source_id sc
  | OpRestart source reset_progress => restart_source source reset_progress sc
  end.

Definition apply_ops (ops : list SchedulerOp) (sc : Scheduler) : Scheduler :=
  foldl apply_op sc ops.

(** What a registry should satisfy: a tracked task was created, was not
    cancelled, and is tracked under one key only; and only created tasks were
    cancelled. *)
Record registry_ok (sc : Scheduler) : Prop := {
  tracked_created : forall k t, tasks sc !! k = Some t -> (t < length (spawned sc))%nat;
  tracked_alive : forall k t, tasks sc !! k = Some t -> t ∉ cancelled sc;
  tracked_once : forall k1 k2 t,
    tasks sc !! k1 = Some t -> tasks sc !! k2 = Some t -> k1 = k2;
  cancelled_created : forall t, t ∈ cancelled sc -> (t < length (spawned sc))%nat
}.

(** ** Runner: the statistics loop *)

(** [models.SyncLog]: the columns [save_stats] fills. *)
Record SyncLog := {
  log_sync_id : Z;
  log_count : Z;
  log_type : EventType.t
}.

(** What one turn of [save_stats] hands out: the rows given to
    [SyncLog.bulk_create], and for each log line its table and its total. *)
Record StatsReport := {
  report_objs : list SyncLog;
  report_lines : list (string * Z)
}.

Section Statistics.

Context {Progress Data Row Index : Type}.

#[local] Abbreviation State := (@State Progress Data Row Index).
#[local] Abbreviation M := (@M Progress Data Row Index).

(** The rows of one [sync_id] (lines 107 to 111). *)
Definition sync_objs (sync_id : Z) (events : gmap EventType.t Z) : list SyncLog :=
  (fun tc => {| log_sync_id := sync_id; log_count := tc.2; log_type := tc.1 |})
    <$> map_to_list events.

(** [total] of one [sync_id] (lines 106 to 108). *)
Definition sync_total (events : gmap EventType.t Z) : Z :=
  foldr Z.add 0 ((map_to_list events).*2).

(** The loop of lines 105 to 119 over the items of [self.stats], in the
    order the map lists them: the rows collected, and the log lines, unless
    [self.tables_map_reverse[sync_id]] raises [KeyError] on the way. *)
Fixpoint collect_stats (reverse : gmap Z string)
    (items : list (Z * gmap EventType.t Z)) : option StatsReport :=
  match items with
  | [] => Some {| report_objs := []; report_lines := [] |}
  | (sync_id, events) :: items' =>
      match reverse !! sync_id with
      | None => None
      | Some table =>
          match collect_stats reverse items' with
          | None => None
          | Some r =>
              Some {| report_objs := sync_objs sync_id events ++ report_objs r;
                      report_lines := (table, sync_total events) :: report_lines r |}
          end
      end
  end.

(** One turn of the [while True] of [Runner.save_stats], after the sleep
    (lines 103 to 123).  [bulk_create] tells what [SyncLog.bulk_create] does
    with the rows: [None] when it stores them, the exception when it raises. *)
Definition save_stats_tick (bulk_create : list SyncLog -> option exn) : M StatsReport :=
  fun st =>
    match collect_stats (tables_map_reverse st) (map_to_list (stats st)) with
    | None => Raise KeyError st
    | Some r =>
        match report_objs r with
        | [] => Ok r st
        | _ :: _ =>
            match bulk_create (report_objs r) with
            | Some err => Raise err st
            | None => Ok r (set_stats ∅ st)
            end
        end
    end.

End Statistics.

(** ** Runner: the order of dispatch *)

Section Dequeues.

Context {Progress Data Row : Type}.


(** The start of a flush timer. *)
Definition is_timer_start (c : @Call Progress Data Row) : bool :=
  match c with
  | EnsureFuture _ _ _ => true
  | _ => false
  end.

(** Everything a Runner holds, and the progress store, without the indexes
    and the trace: what the bootstrap of the targets may not change. *)
Definition runner_fields {Index : Type} (st : @State Progress Data Row Index) :=
  (current_progress st, stats st, collections_map st, tables_sync_settings_map st,
   tables_map_reverse st, meili_map st, sync_settings st, durable st).

End Dequeues.

(** ** Runner: the parts of the bootstrap *)

Section BootstrapParts.

Context {Progress Data Row Index : Type}.
Context `{!Collaborators Progress Data Row Index}.

#[local] Abbreviation M := (@M Progress Data Row Index).

(** The full-data part of the bootstrap of one target (lines 75 to 91), for
    the client and the interval read from [meili_map] at line 74. *)
Definition bootstrap_gate (m : Meili) (ss : SyncSettings) (iv : option Z) : M unit :=
  if ss_full ss
  then
    found ← call_index_exists m (index_name ss);
    if found : bool then mret tt else full_sync m ss iv
  else mret tt.

(** A piece of the bootstrap: it changes the indexes and the trace only, and
    starts no timer. *)
Definition index_only {A : Type} (c : M A) : Prop :=
  forall st, exists delta,
    trace (final (c st)) = trace st ++ delta
    /\ Forall (fun x => is_timer_start x = false) delta
    /\ runner_fields (final (c st)) = runner_fields st.

End BootstrapParts.

(** * Properties *)

Section Properties.

Context {Progress Data Row Index : Type}.
Context `{!Collaborators Progress Data Row Index}.

#[local] Abbreviation Event := (Event Progress Data).
#[local] Abbreviation QueueItem := (QueueItem Progress Data).
#[local] Abbreviation State := (@State Progress Data Row Index).
#[local] Abbreviation Call := (@Call Progress Data Row).
#[local] Abbreviation M := (@M Progress Data Row Index).
#[local] Abbreviation EventCollection := (list (SyncSettings * Event)).

(** Unfolds the monad, so that a coroutine becomes a function of the state. *)
Ltac unfold_M :=
  unfold mbind, M_bind, mret, M_ret, raise, gets, modify, getitem in *.

(** ** Dispatch of an event for a table without targets *)

(** C8. An event whose table has no configured target changes nothing but
    the in-memory marker [current_progress] (and the record of the dequeue):
    the progress store, every batch, every counter and the indexes are as
    before; the marker reaches the store with the next [save_progress] the
    store accepts. *)
Theorem unconfigured_table_only_moves_marker (e : Event) (st : State) :
  default [] (tables_sync_settings_map st !! ev_table e) = [] ->
  exists st',
    sync_data_iter (QEvent e) st = Ok tt st'
    /\ current_progress st' = Some (ev_progress e)
    /\ durable st' = durable st
    /\ collections_map st' = collections_map st
    /\ stats st' = stats st
    /\ indexes st' = indexes st
    /\ trace st' = trace st ++ [QueueGet (QEvent e)]
    /\ (progress_set_ok (ev_progress e) = true ->
        exists st'', save_progress st' = Ok tt st''
                     /\ durable st'' = Some (ev_progress e)).
Proof.
  intros Hnone.
  eexists. split.
  - unfold sync_data_iter. unfold_M. simpl.
    destruct (tables_sync_settings_map st !! ev_table e) as [[|t l]|] eqn:E;
      simpl in Hnone; try discriminate; reflexivity.
  - simpl. repeat split; try reflexivity.
    intros Hok. unfold save_progress. simpl. rewrite Hok.
    eexists. split; reflexivity.
Qed.

(** ** Statistics *)

Lemma stats_incr_lookup (pk : Z) (ty : EventType.t) (x : gmap Z (gmap EventType.t Z)) :
  default 0 (default ∅ (stats_incr pk ty x !! pk) !! ty)
  = default 0 (default ∅ (x !! pk) !! ty) + 1.
Proof.
  unfold stats_incr. rewrite lookup_insert_eq. simpl.
  rewrite lookup_insert_eq. reflexivity.
Qed.

(** Whatever happens to the apply, the target's counters are those of the
    increment of lines 142 and 143. *)
Lemma process_target_stats (e : Event) (setting : SyncSettings) (sync_model : Sync)
    (st : State) (m : Meili) (iv : option Z) :
  meili_map st !! setting = Some (m, iv) ->
  stats (final (process_target e (setting, sync_model) st))
  = stats_incr (sync_pk sync_model) (ev_type e) (stats st).
Proof.
  intros Hm. unfold process_target. unfold_M. rewrite Hm. simpl.
  destruct (negb (truthy (insert_size (sync_meilisearch sync_model)))
            && negb (truthy (insert_interval (sync_meilisearch sync_model)))).
  - unfold call_handle_event, save_progress. simpl.
    destruct (handle_event m e setting (indexes st)); simpl; [|reflexivity].
    destruct (current_progress st); simpl; [|reflexivity].
    destruct (progress_set_ok p); reflexivity.
  - simpl. destruct (collections_map st !! setting); simpl; [|reflexivity].
    unfold size_reached.
    destruct (insert_size (sync_meilisearch sync_model)); simpl; [|reflexivity].
    destruct (z <=? _); simpl; [|reflexivity].
    unfold call_handle_events, save_progress. simpl.
    destruct (apply_batch m _ (indexes st)) as [ix []]; simpl; [|reflexivity].
    destruct (current_progress st); simpl; [|reflexivity].
    destruct (progress_set_ok p); reflexivity.
Qed.

(** C9. The counter of the event's kind is incremented before the apply is
    attempted: in the state [process_target] leaves, however it ends, the
    target's counter is one more than before; and when the immediate apply
    raises, [process_target] raises with the index untouched, the counter
    incremented all the same. *)
Theorem stats_count_dispatched_events (e : Event) (setting : SyncSettings)
    (sync_model : Sync) (st : State) (m : Meili) (iv : option Z) :
  meili_map st !! setting = Some (m, iv) ->
  let o := process_target e (setting, sync_model) st in
  stats_count (sync_pk sync_model) (ev_type e) (final o)
  = stats_count (sync_pk sync_model) (ev_type e) st + 1
  /\ (truthy (insert_size (sync_meilisearch sync_model)) = false ->
      truthy (insert_interval (sync_meilisearch sync_model)) = false ->
      handle_event m e setting (indexes st) = None ->
      raised o = Some IndexError /\ indexes (final o) = indexes st).
Proof.
  intros Hm o. split.
  - unfold stats_count, o. rewrite (process_target_stats _ _ _ _ _ _ Hm).
    apply stats_incr_lookup.
  - intros Hs Hi Hfail. unfold o, process_target. unfold_M.
    rewrite Hm, Hs, Hi. simpl.
    unfold call_handle_event. simpl. rewrite Hfail. simpl. split; reflexivity.
Qed.

(** ** A target batched by time only *)

(** C2. A target with [insert_interval] set and [insert_size] left [None]
    takes the batched branch; after the event is appended to its batch, the
    comparison of the batch size with [None] raises [TypeError], which leaves
    the dispatch loop: no later item is dequeued, and nothing was flushed. *)
Theorem interval_only_target_raises (e : Event) (setting : SyncSettings)
    (sync_model : Sync) (others : list (SyncSettings * Sync))
    (rest : list QueueItem) (st : State) (m : Meili) (iv : option Z)
    (c : EventCollection) :
  tables_sync_settings_map st !! ev_table e = Some ((setting, sync_model) :: others) ->
  meili_map st !! setting = Some (m, iv) ->
  collections_map st !! setting = Some c ->
  insert_size (sync_meilisearch sync_model) = None ->
  truthy (insert_interval (sync_meilisearch sync_model)) = true ->
  let o := sync_data (QEvent e :: rest) st in
  raised o = Some TypeError
  /\ collections_map (final o) !! setting = Some (add_event setting e c)
  /\ trace (final o) = trace st ++ [QueueGet (QEvent e)]
  /\ indexes (final o) = indexes st
  /\ durable (final o) = durable st.
Proof.
  intros Ht Hm Hc Hs Hi o. unfold o, sync_data. simpl.
  unfold sync_data_iter. unfold_M. simpl. rewrite Ht. simpl.
  unfold_M. simpl. rewrite Hm, Hs, Hi. simpl. rewrite Hc. simpl.
  rewrite lookup_insert_eq. repeat split; reflexivity.
Qed.

(** ** The flush timer *)

(** Ticks never leave the loop of [start_interval]. *)
Lemma interval_tick_ok (m : Meili) (key : SyncSettings) (st : State) :
  exists st', interval_tick m key st = Ok tt st'.
Proof.
  unfold interval_tick. destruct ((call_handle_events m key ;; save_progress) st); eauto.
Qed.

Lemma ticks_ok (m : Meili) (key : SyncSettings) (n : nat) (st : State) :
  exists st', run (replicate n (Tick m key)) st = Ok tt st'.
Proof.
  revert st. induction n as [|n IH]; intros st; simpl.
  - eexists; reflexivity.
  - unfold run. simpl. unfold_M.
    destruct (interval_tick_ok m key st) as [st1 ->].
    apply IH.
Qed.

(** C6. A tick of a flush timer never raises, whatever its flush or its
    checkpoint does, and so does any number of ticks: the loop goes on.  When
    the apply raises, the error is logged and the batch and the progress
    store are as before the tick, so the next flush gets the same batch.  When
    the apply went through and the checkpoint raises, the error is logged as
    well; the batch had been applied and is empty. *)
Theorem flush_timer_survives_errors (m : Meili) (key : SyncSettings) (st : State) :
  let c := default [] (collections_map st !! key) in
  exists st',
    interval_tick m key st = Ok tt st'
    /\ (forall n, exists st'', run (replicate n (Tick m key)) st = Ok tt st'')
    /\ (snd (apply_batch m c (indexes st)) = false ->
        collections_map st' = collections_map st
        /\ durable st' = durable st
        /\ trace st' = trace st ++ [HandleEvents m c false; LogError IndexError])
    /\ (snd (apply_batch m c (indexes st)) = true ->
        current_progress st = None ->
        collections_map st' !! key = Some []
        /\ durable st' = durable st
        /\ trace st' = trace st ++ [HandleEvents m c true; LogError TypeError])
    /\ (forall p, snd (apply_batch m c (indexes st)) = true ->
        current_progress st = Some p ->
        progress_set_ok p = false ->
        collections_map st' !! key = Some []
        /\ durable st' = durable st
        /\ trace st' = trace st
             ++ [HandleEvents m c true; ProgressSet p false; LogError StoreError]).
Proof.
  intros c.
  destruct (interval_tick_ok m key st) as [st' Hst']. exists st'.
  split; [exact Hst'|]. split; [intros n; apply ticks_ok|].
  revert Hst'. unfold interval_tick, call_handle_events, save_progress.
  unfold_M. fold c.
  destruct (apply_batch m c (indexes st)) as [ix ok]. simpl.
  destruct ok; simpl.
  - destruct (current_progress st) as [p|] eqn:Hp; simpl.
    + destruct (progress_set_ok p) eqn:Hok; simpl; intros [= <-]; simpl.
      * repeat split; intros; simplify_eq; congruence.
      * repeat split; intros; simplify_eq;
          try apply lookup_insert_eq; rewrite <- ?app_assoc; reflexivity.
    + intros [= <-]; simpl.
      repeat split; intros; simplify_eq;
        try apply lookup_insert_eq; rewrite <- ?app_assoc; reflexivity.
  - intros [= <-]; simpl.
    repeat split; intros; simplify_eq; rewrite <- ?app_assoc; reflexivity.
Qed.

(** ** Bootstrap *)

(** C5. For a target with [full] whose index exists, [bootstrap_target]
    makes one call to [index_exists] and at most starts the flush timer: no
    extraction, no full-data load, the indexes untouched.  And whatever the
    target, a call of the full-data load among the calls it makes means that
    the target has [full] and that [index_exists] answered [False]. *)
Theorem full_sync_gated_by_index (ss : SyncSettings) (st : State) (m : Meili)
    (iv : option Z) :
  meili_map st !! ss = Some (m, iv) ->
  (truthy iv = true -> is_Some (collections_map st !! ss)) ->
  (ss_full ss = true ->
   index_exists m (index_name ss) (indexes st) = Some true ->
   exists st',
     bootstrap_target ss st = Ok tt st'
     /\ indexes st' = indexes st
     /\ trace st' = trace st
          ++ IndexExists m (index_name ss) (Some true)
          :: (if truthy iv then [EnsureFuture m ss (default 0 iv)] else []))
  /\ (forall c,
        c ∈ drop (length (trace st)) (trace (final (bootstrap_target ss st))) ->
        is_full_load c = true ->
        ss_full ss = true
        /\ index_exists m (index_name ss) (indexes st) = Some false).
Proof.
  intros Hm Hc. split.
  - intros Hfull Hex. unfold bootstrap_target. unfold_M. rewrite Hm, Hfull. simpl.
    unfold call_index_exists. rewrite Hex. simpl.
    destruct (truthy iv) eqn:Hiv; simpl.
    + destruct (Hc eq_refl) as [c ->]. simpl.
      eexists. split; [reflexivity|]. simpl. split; [reflexivity|].
      rewrite <- app_assoc. reflexivity.
    + eexists. split; [reflexivity|]. split; reflexivity.
  - intros c. unfold bootstrap_target. unfold_M. rewrite Hm. simpl.
    destruct (ss_full ss) eqn:Hfull; simpl.
    + unfold call_index_exists.
      destruct (index_exists m (index_name ss) (indexes st)) as [[|]|] eqn:Hex; simpl.
      * destruct (truthy iv); simpl.
        -- destruct (collections_map st !! ss); simpl;
             rewrite <- ?app_assoc, drop_app_length; simpl;
             intros Hin Hload; set_unfold; destruct_or!; subst; discriminate.
        -- rewrite drop_app_length. intros Hin Hload.
           set_unfold; destruct_or!; subst; discriminate.
      * intros _ _. split; reflexivity.
      * rewrite drop_app_length. intros Hin Hload.
        set_unfold; destruct_or!; subst; discriminate.
    + destruct (truthy iv); simpl.
      * destruct (collections_map st !! ss); simpl.
        -- rewrite drop_app_length. intros Hin Hload.
           set_unfold; destruct_or!; subst; discriminate.
        -- rewrite drop_all. intros Hin. set_solver.
      * rewrite drop_all. intros Hin. set_solver.
Qed.

(** ** The branches of the dispatch loop, one by one *)

Lemma for_each_cons_ok {A : Type} (f : A -> M unit) (x : A) (l : list A)
    (st st' : State) :
  f x st = Ok tt st' -> for_each (x :: l) f st = for_each l f st'.
Proof. intros E. simpl. unfold_M. rewrite E. reflexivity. Qed.

Lemma for_each_cons_raise {A : Type} (f : A -> M unit) (x : A) (l : list A)
    (st st' : State) (err : exn) :
  f x st = Raise err st' -> for_each (x :: l) f st = Raise err st'.
Proof. intros E. simpl. unfold_M. rewrite E. reflexivity. Qed.

Lemma sync_data_iter_event (e : Event) (st : State) :
  sync_data_iter (QEvent e) st
  = for_each (default [] (tables_sync_settings_map st !! ev_table e))
      (process_target e) (dequeued (QEvent e) st).
Proof.
  unfold sync_data_iter, dequeued. unfold_M. simpl.
  destruct (tables_sync_settings_map st !! ev_table e) as [[|t l]|]; reflexivity.
Qed.

Lemma sync_data_iter_progress (p : Progress) (st : State) :
  sync_data_iter (QProgress p) st = save_progress (dequeued (QProgress p) st).
Proof. reflexivity. Qed.




(** ** The fan-out scenario *)


(** ** Checkpoints follow the dispatch loop *)
























(** ** Batching defers applies, and changes nothing else *)

Lemma apply_batch_app (m : Meili) (c1 c2 : EventCollection) (ix : Index) :
  apply_batch m (c1 ++ c2) ix
  = match apply_batch m c1 ix with
    | (ix', true) => apply_batch m c2 ix'
    | (ix', false) => (ix', false)
    end.
Proof.
  revert ix. induction c1 as [|[s e] c1 IH]; intros ix; simpl; [reflexivity|].
  destruct (handle_event m e s ix); [apply IH|reflexivity].
Qed.

Lemma applied_emit (s : SyncSettings) (c : Call) (st : State) :
  applied s (emit c st) = applied s st ++ applied_by s c.
Proof.
  unfold applied. simpl. rewrite map_app, concat_app. simpl.
  rewrite app_nil_r. reflexivity.
Qed.

Lemma applied_frame (s : SyncSettings) (st : State) :
  (forall d, applied s (set_durable d st) = applied s st)
  /\ (forall x, applied s (set_indexes x st) = applied s st)
  /\ (forall x, applied s (set_stats x st) = applied s st)
  /\ (forall x, applied s (set_collections_map x st) = applied s st)
  /\ (forall p, applied s (set_current_progress p st) = applied s st).
Proof. repeat split. Qed.

(** Pushes [applied] through the writes of a state. *)
Ltac push_applied :=
  repeat first
    [ rewrite applied_emit
    | rewrite (proj1 (applied_frame _ _))
    | rewrite (proj1 (proj2 (applied_frame _ _)))
    | rewrite (proj1 (proj2 (proj2 (applied_frame _ _))))
    | rewrite (proj1 (proj2 (proj2 (proj2 (applied_frame _ _)))))
    | rewrite (proj2 (proj2 (proj2 (proj2 (applied_frame _ _))))) ].

Lemma filter_own (s : SyncSettings) (c : EventCollection) :
  Forall (fun x => x.1 = s) c -> filter (fun x => x.1 = s) c = c.
Proof.
  induction 1 as [|x c Hx Hc IH]; [reflexivity|].
  rewrite filter_cons_True by exact Hx. rewrite IH. reflexivity.
Qed.

Lemma in_step_init (y : Sync) (ix : Index) (stored : option Progress) :
  in_step y (configured [y] ix stored) (configured [unbatch y] ix stored) [].
Proof.
  constructor; unfold configured; simpl.
  - intros t. rewrite lookup_insert. destruct (decide (sync_table y = t)) as [<-|Hn].
    + rewrite decide_True by reflexivity. rewrite lookup_empty. reflexivity.
    + rewrite decide_False by congruence. apply lookup_empty.
  - intros t. rewrite lookup_insert. destruct (decide (sync_table y = t)) as [<-|Hn].
    + rewrite decide_True by reflexivity. rewrite lookup_empty. reflexivity.
    + rewrite decide_False by congruence. apply lookup_empty.
  - eexists. apply lookup_insert_eq.
  - eexists. apply (lookup_insert_eq (M := gmap SyncSettings)).
  - apply lookup_insert_eq.
  - constructor.
  - reflexivity.
  - reflexivity.
  - reflexivity.
Qed.

Lemma in_step_dequeued (y : Sync) (sB sU : State) (c : EventCollection) (i : QueueItem) :
  in_step y sB sU c -> in_step y (dequeued i sB) (dequeued i sU) c.
Proof.
  intros [HtB HtU HmB HmU Hc Hown Hnone Hgap Happ].
  constructor; simpl; try assumption.
  unfold dequeued. push_applied. simpl. rewrite !app_nil_r. exact Happ.
Qed.

(** The immediate path that went through, on the Runner without batching. *)
Lemma unbatched_target_ok (y : Sync) (e : Event) (sU u1 : State) (iv : option Z) :
  meili_map sU !! sync_setting_of y = Some (sync_meili_client y, iv) ->
  process_target e (sync_setting_of y, unbatch y) sU = Ok tt u1 ->
  exists ixU,
    handle_event (sync_meili_client y) e (sync_setting_of y) (indexes sU) = Some ixU
    /\ indexes u1 = ixU
    /\ applied (sync_setting_of y) u1 = applied (sync_setting_of y) sU ++ [e]
    /\ tables_sync_settings_map u1 = tables_sync_settings_map sU
    /\ meili_map u1 = meili_map sU.
Proof.
  intros Hm. unfold process_target. unfold_M. rewrite Hm. simpl.
  unfold call_handle_event, save_progress. simpl.
  destruct (handle_event _ e _ (indexes sU)) as [ixU|]; simpl; [|discriminate].
  destruct (current_progress sU) as [p|]; simpl; [|discriminate].
  destruct (progress_set_ok p); simpl; [|discriminate].
  intros [= <-]. exists ixU. split; [reflexivity|].
  split; [reflexivity|]. split; [|split; reflexivity].
  push_applied. unfold applied_by. rewrite decide_True by reflexivity.
  rewrite app_nil_r. reflexivity.
Qed.

(** One event, for the one target, on both Runners. *)
Lemma in_step_target (y : Sync) (e : Event) (sB sU b1 u1 : State) (c : EventCollection) :
  in_step y sB sU c ->
  process_target e (sync_setting_of y, y) sB = Ok tt b1 ->
  process_target e (sync_setting_of y, unbatch y) sU = Ok tt u1 ->
  exists c', in_step y b1 u1 c'.
Proof.
  intros [HtB HtU [ivB HmB] [ivU HmU] Hc Hown Hnone Hgap Happ] HB HU.
  destruct (unbatched_target_ok y e sU u1 ivU HmU HU) as (ixU & Hh & Hix & Hap & Htab & Hmm).
  revert HB. unfold process_target. unfold_M. rewrite HmB. simpl.
  destruct (negb (truthy (insert_size (sync_meilisearch y)))
            && negb (truthy (insert_interval (sync_meilisearch y)))) eqn:Hb.
  - (* the sync has no batching parameter: the same path on both sides *)
    specialize (Hnone eq_refl). subst c. simpl in Hgap. injection Hgap as Hgap.
    unfold call_handle_event, save_progress. simpl. rewrite Hgap, Hh. simpl.
    destruct (current_progress sB) as [p|]; simpl; [|discriminate].
    destruct (progress_set_ok p); simpl; [|discriminate].
    intros [= <-]. exists [].
    constructor; simpl; rewrite ?Htab, ?Hmm; eauto.
    + rewrite Hix. reflexivity.
    + push_applied. unfold applied_by. rewrite decide_True by reflexivity.
      rewrite Hap, <- Happ, !app_nil_r. reflexivity.
  - (* the batched path *)
    simpl. rewrite Hc. simpl. unfold size_reached.
    destruct (insert_size (sync_meilisearch y)) as [n|] eqn:Hn; simpl; [|discriminate].
    assert (Hown' : Forall (fun x => x.1 = sync_setting_of y) (add_event (sync_setting_of y) e c)).
    { apply Forall_app. split; [exact Hown|]. constructor; [reflexivity|constructor]. }
    assert (Hgap' : apply_batch (sync_meili_client y) (add_event (sync_setting_of y) e c)
                      (indexes sB) = (ixU, true)).
    { unfold add_event. rewrite apply_batch_app, Hgap. simpl. rewrite Hh. reflexivity. }
    destruct (n <=? size (add_event (sync_setting_of y) e c)); simpl.
    + (* flush *)
      unfold call_handle_events, save_progress. simpl.
      rewrite lookup_insert_eq. simpl. rewrite Hgap'. simpl.
      destruct (current_progress sB) as [p|]; simpl; [|discriminate].
      destruct (progress_set_ok p); simpl; [|discriminate].
      intros [= <-]. exists [].
      constructor; simpl; rewrite ?Htab, ?Hmm; eauto.
      * apply lookup_insert_eq.
      * rewrite Hix. reflexivity.
      * push_applied. unfold applied_by. rewrite (filter_own _ _ Hown').
        unfold add_event. rewrite fmap_app. simpl.
        rewrite Hap, <- Happ, !app_nil_r, app_assoc. reflexivity.
    + (* below the threshold *)
      intros [= <-]. exists (add_event (sync_setting_of y) e c).
      constructor; simpl; rewrite ?Htab, ?Hmm; eauto.
      * apply lookup_insert_eq.
      * intros Hf. rewrite Hn in Hf. congruence.
      * rewrite Hix. exact Hgap'.
      * push_applied. unfold add_event. rewrite fmap_app. simpl.
        rewrite Hap, <- Happ, app_assoc. reflexivity.
Qed.

Lemma for_each_one {A : Type} (f : A -> M unit) (x : A) (st : State) :
  for_each [x] f st
  = match f x st with
    | Ok _ st' => Ok tt st'
    | Raise err st' => Raise err st'
    end.
Proof. reflexivity. Qed.

(** One turn of the dispatch loop on both Runners. *)
Lemma in_step_dispatch (y : Sync) (i : QueueItem) (sB sU b1 u1 : State)
    (c : EventCollection) :
  in_step y sB sU c ->
  sync_data_iter i sB = Ok tt b1 ->
  sync_data_iter i sU = Ok tt u1 ->
  exists c', in_step y b1 u1 c'.
Proof.
  intros H HB HU. pose proof (in_step_dequeued y sB sU c i H) as Hd.
  destruct i as [e|p].
  - rewrite sync_data_iter_event in HB, HU.
    rewrite (tables_B _ _ _ _ H) in HB. rewrite (tables_U _ _ _ _ H) in HU.
    destruct (decide (ev_table e = sync_table y)) as [Ht|Ht];
      cbn [from_option id] in HB, HU.
    + rewrite for_each_one in HB, HU.
      destruct (process_target e (sync_setting_of y, y) _) as [[] b2|] eqn:EB;
        [|discriminate].
      destruct (process_target e (sync_setting_of y, unbatch y) _) as [[] u2|] eqn:EU;
        [|discriminate].
      injection HB as <-. injection HU as <-.
      eapply in_step_target; eassumption.
    + injection HB as <-. injection HU as <-. exists c. exact Hd.
  - rewrite sync_data_iter_progress in HB, HU. revert HB HU.
    destruct Hd as [HtB HtU HmB HmU Hc Hown Hnone Hgap Happ].
    unfold save_progress. simpl.
    destruct (progress_set_ok p); [|discriminate].
    intros [= <-] [= <-]. exists c.
    constructor; simpl; try assumption.
    push_applied. simpl. rewrite !app_nil_r. exact Happ.
Qed.

(** One tick of the sync's flush timer: the batch goes to the index. *)
Lemma in_step_tick (y : Sync) (sB sU b1 : State) (c : EventCollection) :
  in_step y sB sU c ->
  interval_tick (sync_meili_client y) (sync_setting_of y) sB = Ok tt b1 ->
  in_step y b1 sU [] /\ indexes b1 = indexes sU.
Proof.
  intros [HtB HtU HmB HmU Hc Hown Hnone Hgap Happ].
  unfold interval_tick, call_handle_events, save_progress. unfold_M.
  rewrite Hc. simpl. rewrite Hgap. simpl.
  assert (Hap : applied (sync_setting_of y) sB
                ++ (filter (fun x => x.1 = sync_setting_of y) c).*2
                = applied (sync_setting_of y) sU).
  { rewrite (filter_own _ _ Hown). exact Happ. }
  assert (Hfin : forall b' : State,
            tables_sync_settings_map b' = tables_sync_settings_map sB ->
            meili_map b' = meili_map sB ->
            collections_map b' !! sync_setting_of y = Some [] ->
            indexes b' = indexes sU ->
            applied (sync_setting_of y) b' = applied (sync_setting_of y) sU ->
            in_step y b' sU [] /\ indexes b' = indexes sU).
  { intros b' E1 E2 E3 E4 E5. split; [|exact E4].
    constructor; rewrite ?E1, ?E2, ?E4, ?E5; simpl; try assumption; try reflexivity.
    - constructor.
    - apply app_nil_r. }
  destruct (current_progress sB) as [p|]; simpl.
  - destruct (progress_set_ok p); simpl; intros [= <-]; apply Hfin; simpl;
      try reflexivity; try apply lookup_insert_eq;
      push_applied; simpl; rewrite ?app_nil_r; exact Hap.
  - intros [= <-]; apply Hfin; simpl;
      try reflexivity; try apply lookup_insert_eq;
      push_applied; simpl; rewrite ?app_nil_r; exact Hap.
Qed.

Lemma in_step_run (y : Sync) (steps : list Step) :
  (forall m key, Tick m key ∈ steps ->
     m = sync_meili_client y /\ key = sync_setting_of y) ->
  forall (sB sU stB stU : State) (c : EventCollection),
    in_step y sB sU c ->
    run steps sB = Ok tt stB ->
    sync_data (dispatched steps) sU = Ok tt stU ->
    exists c', in_step y stB stU c'.
Proof.
  induction steps as [|x xs IH]; intros Hticks sB sU stB stU c H HB HU.
  - injection HB as <-. injection HU as <-. exists c. exact H.
  - assert (Hticks' : forall m key, Tick m key ∈ xs ->
              m = sync_meili_client y /\ key = sync_setting_of y).
    { intros m key Hin. apply Hticks. right. exact Hin. }
    revert HB. unfold run. simpl. unfold_M. fold (run xs).
    destruct x as [i|m key]; simpl.
    + revert HU. unfold sync_data. simpl. unfold_M. fold (sync_data (dispatched xs)).
      destruct (sync_data_iter i sU) as [[] u1|] eqn:EU; [|discriminate].
      destruct (sync_data_iter i sB) as [[] b1|] eqn:EB; [|discriminate].
      intros HU HB.
      destruct (in_step_dispatch y i sB sU b1 u1 c H EB EU) as [c1 H1].
      eapply IH; eassumption.
    + destruct (Hticks m key) as [-> ->]; [left|].
      destruct (interval_tick _ _ sB) as [[] b1|] eqn:EB; [|discriminate].
      intros HB. destruct (in_step_tick y sB sU b1 c H EB) as [H1 _].
      eapply IH; eassumption.
Qed.

(** C3, as the code has it.  A sync and the same sync without batching
    parameters get the same events; the first also gets ticks of its flush
    timer; neither run raises.  Then the first Runner is behind the second by
    exactly the batch it still holds: applying that batch takes its indexes
    to those of the second Runner, the events it applied followed by those it
    holds are the events the second applied, in the same order, and after
    one more tick of the timer the two indexes are equal and the batch is
    empty. *)
Theorem batching_defers_applies (y : Sync) (ix : Index) (stored : option Progress)
    (steps : list Step) (stB stU : State) :
  (forall m key, Tick m key ∈ steps ->
     m = sync_meili_client y /\ key = sync_setting_of y) ->
  run steps (configured [y] ix stored) = Ok tt stB ->
  sync_data (dispatched steps) (configured [unbatch y] ix stored) = Ok tt stU ->
  apply_batch (sync_meili_client y)
    (default [] (collections_map stB !! sync_setting_of y)) (indexes stB)
  = (indexes stU, true)
  /\ applied (sync_setting_of y) stB ++ buffered (sync_setting_of y) stB
     = applied (sync_setting_of y) stU
  /\ exists stB',
       interval_tick (sync_meili_client y) (sync_setting_of y) stB = Ok tt stB'
       /\ indexes stB' = indexes stU
       /\ buffered (sync_setting_of y) stB' = []
       /\ applied (sync_setting_of y) stB' = applied (sync_setting_of y) stU.
Proof.
  intros Hticks HB HU.
  destruct (in_step_run y steps Hticks _ _ stB stU [] (in_step_init y ix stored) HB HU)
    as [c H].
  pose proof (batch_B _ _ _ _ H) as Hc.
  split; [|split].
  - rewrite Hc. simpl. apply (batch_gap _ _ _ _ H).
  - unfold buffered. rewrite Hc. simpl. apply (applied_gap _ _ _ _ H).
  - destruct (interval_tick_ok (sync_meili_client y) (sync_setting_of y) stB) as [stB' Hst'].
    exists stB'. split; [exact Hst'|].
    destruct (in_step_tick y stB stU stB' c H Hst') as [H' Hix].
    split; [exact Hix|]. split.
    + unfold buffered. rewrite (batch_B _ _ _ _ H'). reflexivity.
    + rewrite <- (applied_gap _ _ _ _ H'). simpl. rewrite app_nil_r. reflexivity.
Qed.
End Properties.

(** * Scheduler *)

Lemma startup_cons (source : Source) (sources : list Source) (sc : Scheduler) :
  startup (source :: sources) sc = startup sources (track_new source false sc).
Proof. reflexivity. Qed.

Lemma startup_spawned (sources : list Source) (sc : Scheduler) :
  spawned (startup sources sc)
  = spawned sc ++ ((fun s => (source_pk s, false)) <$> sources)
  /\ cancelled (startup sources sc) = cancelled sc.
Proof.
  revert sc. induction sources as [|x xs IH]; intros sc.
  - simpl. rewrite app_nil_r. split; reflexivity.
  - rewrite startup_cons. destruct (IH (track_new x false sc)) as [Hs Hc].
    rewrite Hs, Hc. simpl. rewrite <- app_assoc. split; reflexivity.
Qed.

Lemma startup_other (sources : list Source) (sc : Scheduler) (k : Z) :
  k ∉ source_pk <$> sources ->
  tasks (startup sources sc) !! k = tasks sc !! k.
Proof.
  revert sc. induction sources as [|x xs IH]; intros sc Hk; [reflexivity|].
  rewrite fmap_cons in Hk. apply not_elem_of_cons in Hk as [Hne Hk].
  rewrite startup_cons, IH by exact Hk.
  simpl. apply lookup_insert_ne. congruence.
Qed.

Lemma startup_tracked (sources : list Source) (sc : Scheduler) (i : nat) (s : Source) :
  NoDup (source_pk <$> sources) ->
  sources !! i = Some s ->
  tasks (startup sources sc) !! source_pk s = Some (length (spawned sc) + i)%nat.
Proof.
  revert sc i. induction sources as [|x xs IH]; intros sc i Hnd Hi; [discriminate|].
  apply NoDup_cons in Hnd as [Hx Hnd]. rewrite startup_cons.
  destruct i as [|j]; simpl in Hi.
  - injection Hi as ->. rewrite startup_other by exact Hx. simpl.
    rewrite lookup_insert_eq. f_equal. lia.
  - rewrite (IH _ j Hnd Hi). simpl. rewrite length_app. simpl. f_equal. lia.
Qed.

Lemma startup_dom (sources : list Source) (sc : Scheduler) :
  dom (tasks (startup sources sc))
  = dom (tasks sc) ∪ list_to_set (source_pk <$> sources).
Proof.
  revert sc. induction sources as [|x xs IH]; intros sc.
  - simpl. set_solver.
  - rewrite startup_cons, IH. simpl. rewrite dom_insert_L. set_solver.
Qed.

(** C7, as the code has it.  [startup] creates one task for each row of
    [Source.all()], in order, whether or not any sync of the source is enabled,
    and tracks it under the source's primary key; it cancels nothing. *)
Theorem startup_tracks_every_source (sources : list Source) :
  NoDup (source_pk <$> sources) ->
  let sc := startup sources Scheduler_init in
  spawned sc = (fun s => (source_pk s, false)) <$> sources
  /\ (forall i s, sources !! i = Some s -> tasks sc !! source_pk s = Some i)
  /\ dom (tasks sc) = list_to_set (source_pk <$> sources)
  /\ cancelled sc = [].
Proof.
  intros Hnd sc. unfold sc.
  destruct (startup_spawned sources Scheduler_init) as [Hs Hc].
  split; [exact Hs|]. split; [|split; [|exact Hc]].
  - intros i s Hi. apply (startup_tracked sources Scheduler_init i s Hnd Hi).
  - rewrite startup_dom. simpl. rewrite dom_empty_L. set_solver.
Qed.

(** C10. Restarting a source that has no tracked task: the untrack step
    changes nothing and cancels nothing, one new task is created for the
    source, with the requested [reset_progress], and it is the task tracked
    under the source's key; the other keys keep their tasks. *)
Theorem restart_untracked_source_starts_it (source : Source) (reset_progress : bool)
    (sc : Scheduler) :
  tasks sc !! source_pk source = None ->
  let sc' := restart_source source reset_progress sc in
  remove_source (source_pk source) sc = sc
  /\ tasks sc' !! source_pk source = Some (length (spawned sc))
  /\ spawned sc' = spawned sc ++ [(source_pk source, reset_progress)]
  /\ cancelled sc' = cancelled sc
  /\ (forall k, k <> source_pk source -> tasks sc' !! k = tasks sc !! k).
Proof.
  intros Hnone sc'.
  assert (Hrm : remove_source (source_pk source) sc = sc).
  { unfold remove_source. rewrite Hnone. reflexivity. }
  unfold sc', restart_source. rewrite Hrm. simpl.
  split; [reflexivity|]. split; [apply lookup_insert_eq|].
  split; [reflexivity|]. split; [reflexivity|].
  intros k Hk. apply lookup_insert_ne. congruence.
Qed.

(** * Further properties *)

(** ** Scheduler: the registry stays sound *)

Lemma registry_ok_init : registry_ok Scheduler_init.
Proof.
  constructor; simpl.
  - intros k t H. rewrite lookup_empty in H. discriminate.
  - intros k t H. rewrite lookup_empty in H. discriminate.
  - intros k1 k2 t H. rewrite lookup_empty in H. discriminate.
  - intros t H. inversion H.
Qed.

Lemma registry_ok_track_new (source : Source) (reset_progress : bool) (sc : Scheduler) :
  registry_ok sc -> registry_ok (track_new source reset_progress sc).
Proof.
  intros [Hc Ha Ho Hk]. constructor; simpl.
  - intros k t. rewrite length_app. simpl. rewrite lookup_insert.
    destruct (decide (source_pk source = k)); [intros [= <-]; lia|].
    intros H. specialize (Hc k t H). lia.
  - intros k t. rewrite lookup_insert.
    destruct (decide (source_pk source = k)).
    + intros [= <-] Hin. specialize (Hk _ Hin). lia.
    + apply Ha.
  - intros k1 k2 t. rewrite !lookup_insert.
    destruct (decide (source_pk source = k1)), (decide (source_pk source = k2)).
    + congruence.
    + intros [= <-] H. specialize (Hc _ _ H). lia.
    + intros H [= <-]. specialize (Hc _ _ H). lia.
    + apply Ho.
  - intros t Hin. rewrite length_app. simpl. specialize (Hk t Hin). lia.
Qed.

Lemma registry_ok_remove (source_id : Z) (sc : Scheduler) :
  registry_ok sc -> registry_ok (remove_source source_id sc).
Proof.
  intros [Hc Ha Ho Hk]. unfold remove_source.
  destruct (tasks sc !! source_id) as [t0|] eqn:E; [|constructor; assumption].
  constructor; simpl.
  - intros k t H. apply lookup_delete_Some in H as [_ H]. eauto.
  - intros k t H. apply lookup_delete_Some in H as [Hne H].
    intros Hin. apply elem_of_app in Hin as [Hin|Hin].
    + exact (Ha _ _ H Hin).
    + apply list_elem_of_singleton in Hin. subst t0.
      apply Hne. exact (Ho _ _ _ E H).
  - intros k1 k2 t H1 H2.
    apply lookup_delete_Some in H1 as [_ H1].
    apply lookup_delete_Some in H2 as [_ H2]. eauto.
  - intros t Hin. apply elem_of_app in Hin as [Hin|Hin]; [eauto|].
    apply list_elem_of_singleton in Hin. subst t0. eauto.
Qed.

Lemma registry_ok_startup (sources : list Source) (sc : Scheduler) :
  registry_ok sc -> registry_ok (startup sources sc).
Proof.
  revert sc. induction sources as [|x xs IH]; intros sc H; [exact H|].
  rewrite startup_cons. apply IH, registry_ok_track_new, H.
Qed.

(** X1. Whatever sequence of [startup], [remove_source] and
    [restart_source] calls is made on a fresh Scheduler, every tracked task
    is a task that was created and never cancelled, no task is tracked under
    two keys, and only created tasks were cancelled. *)
Theorem registry_stays_sound (ops : list SchedulerOp) :
  registry_ok (apply_ops ops Scheduler_init).
Proof.
  unfold apply_ops. generalize registry_ok_init. generalize Scheduler_init.
  induction ops as [|op ops IH]; intros sc H; [exact H|].
  simpl. apply IH. destruct op as [sources|source_id|source reset_progress]; simpl.
  - apply registry_ok_startup, H.
  - apply registry_ok_remove, H.
  - unfold restart_source. apply registry_ok_track_new, registry_ok_remove, H.
Qed.

(** X2. [remove_source] untracks the source and cancels the task it was
    tracked with, if any, and nothing else; a second call changes nothing. *)
Theorem remove_source_idempotent (source_id : Z) (sc : Scheduler) :
  let sc' := remove_source source_id sc in
  tasks sc' = delete source_id (tasks sc)
  /\ cancelled sc' = cancelled sc ++ option_list (tasks sc !! source_id)
  /\ spawned sc' = spawned sc
  /\ remove_source source_id sc' = sc'.
Proof.
  intros sc'. unfold sc', remove_source.
  destruct (tasks sc !! source_id) as [t|] eqn:E; simpl.
  - rewrite lookup_delete_eq. repeat split.
  - rewrite E, app_nil_r. repeat split. symmetry. apply delete_id. exact E.
Qed.

(** X3. Restarting a tracked source in a sound registry: the task it was
    tracked with is cancelled and no longer running, a new task, created
    with the requested [reset_progress], is tracked in its place and
    running, and the other sources keep their tasks. *)
Theorem restart_replaces_tracked_task (source : Source) (reset_progress : bool)
    (sc : Scheduler) (t : nat) :
  registry_ok sc ->
  tasks sc !! source_pk source = Some t ->
  let sc' := restart_source source reset_progress sc in
  let t' := length (spawned sc) in
  tasks sc' !! source_pk source = Some t'
  /\ t' <> t
  /\ spawned sc' !! t' = Some (source_pk source, reset_progress)
  /\ cancelled sc' = cancelled sc ++ [t]
  /\ (t ∉ running sc')
  /\ t' ∈ running sc'
  /\ (forall k, k <> source_pk source -> tasks sc' !! k = tasks sc !! k).
Proof.
  intros Hok Ht sc' t'. unfold sc', t', restart_source, remove_source. rewrite Ht.
  pose proof (tracked_created _ Hok _ _ Ht) as Hlt. simpl.
  split; [apply lookup_insert_eq|]. split; [lia|].
  split; [rewrite lookup_app_r, Nat.sub_diag by lia; reflexivity|].
  split; [reflexivity|]. split; [|split].
  - unfold running. simpl. intros Hin.
    apply list_elem_of_filter in Hin as [Hn _]. apply Hn.
    apply elem_of_app. right. apply list_elem_of_singleton. reflexivity.
  - unfold running. simpl. apply list_elem_of_filter. split.
    + intros Hin. apply elem_of_app in Hin as [Hin|Hin].
      * pose proof (cancelled_created _ Hok _ Hin). lia.
      * apply list_elem_of_singleton in Hin. lia.
    + rewrite length_app. simpl. apply elem_of_seq. lia.
  - intros k Hk. rewrite lookup_insert_ne by congruence.
    apply lookup_delete_ne. congruence.
Qed.

(** A task [startup] leaves under a key is the one that was there, for a
    key outside [sources], or a task this call created. *)
Lemma startup_task_origin (sources : list Source) (sc : Scheduler) (k : Z) (t : nat) :
  tasks (startup sources sc) !! k = Some t ->
  (tasks sc !! k = Some t /\ k ∉ source_pk <$> sources)
  \/ (length (spawned sc) <= t)%nat.
Proof.
  revert sc. induction sources as [|x xs IH]; intros sc H.
  - left. split; [exact H|]. apply not_elem_of_nil.
  - rewrite startup_cons in H. destruct (IH _ H) as [[H1 H2]|H1].
    + simpl in H1. rewrite lookup_insert in H1.
      destruct (decide (source_pk x = k)) as [E|E].
      * injection H1 as <-. right. lia.
      * left. split; [exact H1|]. rewrite fmap_cons.
        apply not_elem_of_cons. split; [congruence|exact H2].
    + right. simpl in H1. rewrite length_app in H1. simpl in H1. lia.
Qed.

(** X4. [startup] on a registry that already tracks one of the sources
    replaces the tracked task without cancelling it: the old task keeps
    running, and no key tracks it any more. *)
Theorem startup_leaves_old_task_running (sources : list Source) (source : Source)
    (sc : Scheduler) (t : nat) :
  registry_ok sc ->
  source ∈ sources ->
  tasks sc !! source_pk source = Some t ->
  let sc' := startup sources sc in
  t ∈ running sc'
  /\ cancelled sc' = cancelled sc
  /\ (forall k, tasks sc' !! k <> Some t).
Proof.
  intros Hok Hin Ht sc'.
  destruct (startup_spawned sources sc) as [Hs Hc].
  pose proof (tracked_created _ Hok _ _ Ht) as Hlt.
  split; [|split; [exact Hc|]].
  - unfold running, sc'. apply list_elem_of_filter. split.
    + rewrite Hc. apply (tracked_alive _ Hok _ _ Ht).
    + rewrite Hs, length_app. apply elem_of_seq. lia.
  - intros k Hk. destruct (startup_task_origin _ _ _ _ Hk) as [[H1 H2]|H1]; [|lia].
    pose proof (tracked_once _ Hok _ _ _ Ht H1) as <-.
    apply H2. apply list_elem_of_fmap. exists source. split; [reflexivity|exact Hin].
Qed.

(** X5. [shutdown] cancels every tracked task and untracks none: the
    registry still lists, under each key, a task that is no longer running. *)
Theorem shutdown_cancels_and_keeps_registry (sc : Scheduler) :
  tasks (shutdown sc) = tasks sc
  /\ spawned (shutdown sc) = spawned sc
  /\ (forall k t, tasks sc !! k = Some t ->
      t ∈ cancelled (shutdown sc) /\ t ∉ running (shutdown sc))
  /\ (forall t, t ∈ cancelled sc -> t ∈ cancelled (shutdown sc)).
Proof.
  split; [reflexivity|]. split; [reflexivity|]. split.
  - intros k t Ht.
    assert (Hin : t ∈ cancelled (shutdown sc)).
    { simpl. apply elem_of_app. right. apply list_elem_of_fmap.
      exists (k, t). split; [reflexivity|]. apply elem_of_map_to_list. exact Ht. }
    split; [exact Hin|]. unfold running. intros Hr.
    apply list_elem_of_filter in Hr as [Hn _]. exact (Hn Hin).
  - intros t Hin. simpl. apply elem_of_app. left. exact Hin.
Qed.

(** ** Runner: what a dispatch leaves alone *)

Section RunnerCoverage.

Context {Progress Data Row Index : Type}.
Context `{!Collaborators Progress Data Row Index}.

#[local] Abbreviation Event := (Event Progress Data).
#[local] Abbreviation QueueItem := (QueueItem Progress Data).
#[local] Abbreviation State := (@State Progress Data Row Index).
#[local] Abbreviation Call := (@Call Progress Data Row).
#[local] Abbreviation M := (@M Progress Data Row Index).
#[local] Abbreviation EventCollection := (list (SyncSettings * Event)).

Ltac unfold_M :=
  unfold mbind, M_bind, mret, M_ret, raise, gets, modify, getitem in *.

(** Every way [process_target] can end, with the state it leaves. *)
Ltac process_target_cases setting sync_model st :=
  unfold process_target; unfold_M;
  destruct (meili_map st !! setting) as [[? ?]|]; simpl;
  [destruct (negb (truthy (insert_size (sync_meilisearch sync_model)))
             && negb (truthy (insert_interval (sync_meilisearch sync_model))));
   [unfold call_handle_event, save_progress; simpl;
    destruct (handle_event _ _ setting (indexes st)); simpl;
    [destruct (current_progress st) as [?p|] eqn:?Hcur; simpl;
     [destruct (progress_set_ok p); simpl|]|]
   |simpl; destruct (collections_map st !! setting) as [?c|]; simpl;
    [unfold size_reached;
     destruct (insert_size (sync_meilisearch sync_model)) as [?n|]; simpl;
     [destruct (n <=? _); simpl;
      [unfold call_handle_events, save_progress; simpl;
       rewrite ?lookup_insert_eq; simpl;
       destruct (apply_batch _ _ (indexes st)) as [? []]; simpl;
       [destruct (current_progress st) as [?p|] eqn:?Hcur; simpl;
        [destruct (progress_set_ok p); simpl|]|]
      |]
     |]
    |]]
  |].

(** X6. Handling an event for one target never touches the Runner's
    configuration, the marker in memory, the batch of a target with another
    setting, or a counter of another sync or another kind of event. *)
Theorem process_target_frame (e : Event) (setting : SyncSettings) (sync_model : Sync)
    (st : State) :
  let st' := final (process_target e (setting, sync_model) st) in
  tables_sync_settings_map st' = tables_sync_settings_map st
  /\ meili_map st' = meili_map st
  /\ sync_settings st' = sync_settings st
  /\ current_progress st' = current_progress st
  /\ (forall s, s <> setting -> collections_map st' !! s = collections_map st !! s)
  /\ (forall pk ty, (pk, ty) <> (sync_pk sync_model, ev_type e) ->
      stats_count pk ty st' = stats_count pk ty st).
Proof.
  assert (Hcount : forall pk ty (x : State),
            stats x = stats_incr (sync_pk sync_model) (ev_type e) (stats st) ->
            (pk, ty) <> (sync_pk sync_model, ev_type e) ->
            stats_count pk ty x = stats_count pk ty st).
  { intros pk ty x Hx Hne. unfold stats_count. rewrite Hx. unfold stats_incr.
    destruct (decide (pk = sync_pk sync_model)) as [->|Hpk].
    - rewrite lookup_insert_eq. simpl. rewrite lookup_insert_ne by congruence.
      reflexivity.
    - rewrite lookup_insert_ne by congruence. reflexivity. }
  process_target_cases setting sync_model st;
    (split; [reflexivity|]; split; [reflexivity|]; split; [reflexivity|];
     split; [first [reflexivity|assumption]|]; split;
     [ intros s Hs; simpl; rewrite ?lookup_insert_ne by congruence; reflexivity
     | intros pk ty Hne;
       first [ reflexivity | apply Hcount; [reflexivity|exact Hne] ] ]).
Qed.

(** ** Runner: fan-out *)

Lemma process_target_ok_count (e : Event) (target : SyncSettings * Sync) (st st1 : State) :
  process_target e target st = Ok tt st1 ->
  stats_count (sync_pk target.2) (ev_type e) st1
  = stats_count (sync_pk target.2) (ev_type e) st + 1.
Proof.
  destruct target as [s y]. intros Hrun.
  destruct (meili_map st !! s) as [[m iv]|] eqn:Hm.
  - pose proof (process_target_stats e s y st m iv Hm) as Hst.
    rewrite Hrun in Hst. simpl in Hst.
    unfold stats_count. rewrite Hst. apply stats_incr_lookup.
  - revert Hrun. unfold process_target. unfold_M. rewrite Hm. discriminate.
Qed.

Lemma process_target_other_counts (e : Event) (s : SyncSettings) (y : Sync) (st : State)
    (pk : Z) (ty : EventType.t) :
  (pk, ty) <> (sync_pk y, ev_type e) ->
  stats_count pk ty (final (process_target e (s, y) st)) = stats_count pk ty st.
Proof.
  intros Hne. destruct (meili_map st !! s) as [[m iv]|] eqn:Hm.
  - unfold stats_count. rewrite (process_target_stats e s y st m iv Hm).
    unfold stats_incr. destruct (decide (pk = sync_pk y)) as [->|Hpk].
    + rewrite lookup_insert_eq. simpl. rewrite lookup_insert_ne by congruence.
      reflexivity.
    + rewrite lookup_insert_ne by congruence. reflexivity.
  - unfold process_target. unfold_M. rewrite Hm. reflexivity.
Qed.

Lemma for_each_counts (e : Event) (targets : list (SyncSettings * Sync)) :
  NoDup (sync_pk <$> targets.*2) ->
  forall st st' : State,
    for_each targets (process_target e) st = Ok tt st' ->
    forall target, target ∈ targets ->
      stats_count (sync_pk target.2) (ev_type e) st'
      = stats_count (sync_pk target.2) (ev_type e) st + 1.
Proof.
  induction targets as [|[s y] l IH]; intros Hnd st st' Hrun target Hin.
  - inversion Hin.
  - rewrite !fmap_cons in Hnd. apply NoDup_cons in Hnd as [Hy Hnd].
    destruct (process_target e (s, y) st) as [[] st1|err st1] eqn:E1;
      [|rewrite (for_each_cons_raise _ _ _ _ _ _ E1) in Hrun; discriminate].
    rewrite (for_each_cons_ok _ _ _ _ _ E1) in Hrun. rename Hrun into Hrest.
    assert (Hother : forall t', t' ∈ l ->
              stats_count (sync_pk t'.2) (ev_type e) st1
              = stats_count (sync_pk t'.2) (ev_type e) st).
    { intros t' Ht'.
      pose proof (process_target_other_counts e s y st (sync_pk t'.2) (ev_type e)) as Hc.
      rewrite E1 in Hc. simpl in Hc. apply Hc. intros [= Hpk].
      apply Hy. cbn [snd]. rewrite <- Hpk. apply list_elem_of_fmap. exists t'.2.
      split; [reflexivity|]. apply list_elem_of_fmap. exists t'.
      split; [reflexivity|exact Ht']. }
    apply elem_of_cons in Hin as [->|Hin].
    + (* the first target: counted now, left alone by the others *)
      pose proof (process_target_ok_count e (s, y) st st1 E1) as Hfirst.
      simpl in Hfirst. simpl. rewrite <- Hfirst. clear Hfirst.
      clear IH Hother E1. revert st1 Hrest.
      induction l as [|[s2 y2] l IHl]; intros st1 Hrest.
      * injection Hrest as <-. reflexivity.
      * destruct (process_target e (s2, y2) st1) as [[] st2|err st2] eqn:E2;
          [|rewrite (for_each_cons_raise _ _ _ _ _ _ E2) in Hrest; discriminate].
        rewrite (for_each_cons_ok _ _ _ _ _ E2) in Hrest.
        rewrite !fmap_cons in Hy, Hnd. cbn [snd] in Hy.
        apply not_elem_of_cons in Hy as [Hne Hy].
        apply NoDup_cons in Hnd as [_ Hnd].
        rewrite (IHl Hy Hnd st2 Hrest).
        pose proof (process_target_other_counts e s2 y2 st1 (sync_pk y) (ev_type e)) as Hc.
        rewrite E2 in Hc. simpl in Hc. apply Hc. congruence.
    + rewrite (IH Hnd st1 st' Hrest target Hin). rewrite (Hother target Hin).
      reflexivity.
Qed.

(** X7. When the dispatch of an event ends without exception, the counter
    of the event's kind went up by one for every target of the event's table
    (the targets are syncs with distinct primary keys). *)
Theorem fan_out_counts_every_target (e : Event) (st st' : State) :
  let targets := default [] (tables_sync_settings_map st !! ev_table e) in
  NoDup (sync_pk <$> targets.*2) ->
  sync_data_iter (QEvent e) st = Ok tt st' ->
  forall target, target ∈ targets ->
    stats_count (sync_pk target.2) (ev_type e) st'
    = stats_count (sync_pk target.2) (ev_type e) st + 1.
Proof.
  intros targets Hnd Hrun target Hin.
  rewrite sync_data_iter_event in Hrun. fold targets in Hrun.
  apply (for_each_counts e targets Hnd _ _ Hrun target Hin).
Qed.

(** ** Runner: progress-only items *)

(** X8. A progress-only item touches no batch, counter or index; when the
    store accepts its marker the marker is durable at once, whatever the
    batches still hold, and the dispatch loop goes on; when the store raises,
    the exception leaves the dispatch loop. *)
Theorem progress_only_item_persists (p : Progress) (st : State) :
  let o := sync_data_iter (QProgress p) st in
  collections_map (final o) = collections_map st
  /\ stats (final o) = stats st
  /\ indexes (final o) = indexes st
  /\ current_progress (final o) = Some p
  /\ (progress_set_ok p = true ->
      raised o = None
      /\ durable (final o) = Some p
      /\ trace (final o) = trace st ++ [QueueGet (QProgress p); ProgressSet p true])
  /\ (progress_set_ok p = false ->
      forall rest, raised (sync_data (QProgress p :: rest) st) = Some StoreError
                   /\ durable (final (sync_data (QProgress p :: rest) st)) = durable st).
Proof.
  intros o. unfold o. rewrite sync_data_iter_progress.
  unfold save_progress, sync_data. simpl. unfold_M.
  rewrite sync_data_iter_progress. unfold save_progress. simpl.
  destruct (progress_set_ok p); simpl.
  - split; [reflexivity|]. split; [reflexivity|]. split; [reflexivity|].
    split; [reflexivity|]. split; [|discriminate]. intros _.
    split; [reflexivity|]. split; [reflexivity|].
    rewrite <- app_assoc. reflexivity.
  - split; [reflexivity|]. split; [reflexivity|]. split; [reflexivity|].
    split; [reflexivity|]. split; [discriminate|]. intros _ rest.
    split; reflexivity.
Qed.

(** ** Runner: the size of a batch *)

(** X9. For a sync with a positive [insert_size], a batch that is below
    the threshold stays below it after every event handled without
    exception: either the event is appended and nothing is written, or the
    batch reaches the threshold exactly, is flushed whole, and is empty; the
    marker in memory is then the durable one. *)
Theorem batch_stays_below_threshold (e : Event) (s : SyncSettings) (y : Sync)
    (st st' : State) (c : EventCollection) (n : Z) :
  insert_size (sync_meilisearch y) = Some n ->
  0 < n ->
  collections_map st !! s = Some c ->
  size c < n ->
  process_target e (s, y) st = Ok tt st' ->
  (collections_map st' !! s = Some (add_event s e c)
   /\ size (add_event s e c) < n
   /\ indexes st' = indexes st
   /\ durable st' = durable st
   /\ trace st' = trace st)
  \/ (collections_map st' !! s = Some []
      /\ size (add_event s e c) = n
      /\ durable st' = current_progress st
      /\ exists m p,
          trace st' = trace st ++ [HandleEvents m (add_event s e c) true; ProgressSet p true]).
Proof.
  intros Hn Hpos Hc Hlt.
  assert (Hsz : size (add_event s e c) = size c + 1).
  { unfold size, add_event. rewrite length_app. simpl. lia. }
  assert (Hb : negb (truthy (insert_size (sync_meilisearch y)))
               && negb (truthy (insert_interval (sync_meilisearch y))) = false).
  { rewrite Hn. simpl. destruct (n =? 0) eqn:E; [apply Z.eqb_eq in E; lia|reflexivity]. }
  unfold process_target. unfold_M.
  destruct (meili_map st !! s) as [[m iv]|]; simpl; [|discriminate].
  rewrite Hb. simpl. rewrite Hc. simpl. unfold size_reached. rewrite Hn. simpl.
  destruct (n <=? size (add_event s e c)) eqn:Hle; simpl.
  - apply Z.leb_le in Hle.
    unfold call_handle_events, save_progress. simpl. rewrite lookup_insert_eq. simpl.
    destruct (apply_batch m (add_event s e c) (indexes st)) as [ix []]; simpl;
      [|discriminate].
    destruct (current_progress st) as [p|]; simpl; [|discriminate].
    destruct (progress_set_ok p); simpl; [|discriminate].
    intros [= <-]. right. simpl. split; [apply lookup_insert_eq|].
    split; [lia|]. split; [reflexivity|]. exists m, p.
    rewrite <- app_assoc. reflexivity.
  - apply Z.leb_gt in Hle. intros [= <-]. left. simpl.
    split; [apply lookup_insert_eq|]. split; [exact Hle|].
    split; [reflexivity|]. split; reflexivity.
Qed.

(** ** Runner: the order of dispatch *)




(** ** Runner: an exception in the fan-out *)



(** ** Runner: the maps [__aenter__] builds *)

Lemma register_tables (syncs : list Sync) (st : State) (t : string) :
  tables_sync_settings_map (foldl register_sync st syncs) !! t
  = match filter (fun y => sync_table y = t) syncs with
    | [] => tables_sync_settings_map st !! t
    | l => Some (default [] (tables_sync_settings_map st !! t)
                 ++ ((fun y => (sync_setting_of y, y)) <$> l))
    end.
Proof.
  revert st. induction syncs as [|y l IH]; intros st; [reflexivity|].
  simpl foldl. rewrite IH. simpl tables_sync_settings_map.
  rewrite filter_cons. destruct (decide (sync_table y = t)) as [<-|Hne].
  - rewrite lookup_insert_eq. simpl.
    destruct (filter _ l) as [|z l']; [reflexivity|].
    rewrite <- app_assoc. reflexivity.
  - rewrite lookup_insert_ne by exact Hne. reflexivity.
Qed.

Lemma register_meili (syncs : list Sync) (st : State) (s : SyncSettings) :
  meili_map (foldl register_sync st syncs) !! s
  = match last (filter (fun y => sync_setting_of y = s) syncs) with
    | Some y => Some (sync_meili_client y, insert_interval (sync_meilisearch y))
    | None => meili_map st !! s
    end.
Proof.
  revert st. induction syncs as [|y l IH]; intros st; [reflexivity|].
  simpl foldl. rewrite IH. simpl meili_map.
  rewrite filter_cons. destruct (decide (sync_setting_of y = s)) as [<-|Hne].
  - rewrite last_cons, lookup_insert_eq.
    destruct (last (filter _ l)); reflexivity.
  - rewrite lookup_insert_ne by exact Hne. reflexivity.
Qed.

Lemma register_collections (syncs : list Sync) (st : State) (s : SyncSettings) :
  collections_map (foldl register_sync st syncs) !! s
  = match last (filter (fun y => sync_setting_of y = s) syncs) with
    | Some _ => Some []
    | None => collections_map st !! s
    end.
Proof.
  revert st. induction syncs as [|y l IH]; intros st; [reflexivity|].
  simpl foldl. rewrite IH. simpl collections_map.
  rewrite filter_cons. destruct (decide (sync_setting_of y = s)) as [<-|Hne].
  - rewrite last_cons, lookup_insert_eq.
    destruct (last (filter _ l)); reflexivity.
  - rewrite lookup_insert_ne by exact Hne. reflexivity.
Qed.

Lemma register_settings (syncs : list Sync) (st : State) :
  sync_settings (foldl register_sync st syncs)
  = sync_settings st ++ (sync_setting_of <$> syncs).
Proof.
  revert st. induction syncs as [|y l IH]; intros st; simpl.
  - rewrite app_nil_r. reflexivity.
  - rewrite IH. simpl. rewrite <- app_assoc. reflexivity.
Qed.

(** X11. The maps built from the syncs of a source: a table is mapped to
    all of its syncs, in order, and to nothing when it has none (never to an
    empty list); the targets to bootstrap are the syncs' settings in order;
    every setting gets an empty batch; and a setting shared by several syncs
    gets the index client and the interval of the last of them. *)
Theorem configured_maps (syncs : list Sync) (ix : Index) (stored : option Progress) :
  let st : State := configured syncs ix stored in
  (forall t,
     default [] (tables_sync_settings_map st !! t)
     = (fun y => (sync_setting_of y, y)) <$> filter (fun y => sync_table y = t) syncs)
  /\ (forall t,
       tables_sync_settings_map st !! t = None
       <-> filter (fun y => sync_table y = t) syncs = [])
  /\ sync_settings st = sync_setting_of <$> syncs
  /\ (forall s,
       meili_map st !! s
       = (fun y => (sync_meili_client y, insert_interval (sync_meilisearch y)))
           <$> last (filter (fun y => sync_setting_of y = s) syncs))
  /\ (forall y, y ∈ syncs -> collections_map st !! sync_setting_of y = Some []).
Proof.
  intros st. unfold st, configured. simpl.
  split; [|split; [|split; [|split]]].
  - intros t. rewrite register_tables. simpl. rewrite lookup_empty.
    destruct (filter _ syncs); reflexivity.
  - intros t. rewrite register_tables. simpl. rewrite lookup_empty.
    destruct (filter _ syncs); split; try reflexivity; discriminate.
  - rewrite register_settings. reflexivity.
  - intros s. rewrite register_meili. simpl. rewrite lookup_empty.
    destruct (last _); reflexivity.
  - intros y Hy. rewrite register_collections. simpl.
    destruct (last _) eqn:E; [reflexivity|].
    apply last_None in E.
    assert (Hin : y ∈ filter (fun z => sync_setting_of z = sync_setting_of y) syncs)
      by (apply list_elem_of_filter; split; [reflexivity|exact Hy]).
    rewrite E in Hin. inversion Hin.
Qed.

(** ** Runner: bootstrap of the targets *)

Lemma index_only_bind {A B : Type} (c : M A) (k : A -> M B) :
  index_only c -> (forall a, index_only (k a)) -> index_only (c ≫= k).
Proof.
  intros Hc Hk st. unfold_M.
  destruct (Hc st) as (d1 & Ht1 & Hf1 & Hr1).
  destruct (c st) as [a st1|err st1]; simpl in *.
  - destruct (Hk a st1) as (d2 & Ht2 & Hf2 & Hr2).
    exists (d1 ++ d2). rewrite Ht2, Ht1, Hr2, Hr1, app_assoc.
    split; [reflexivity|]. split; [apply Forall_app; split; assumption|reflexivity].
  - exists d1. repeat split; assumption.
Qed.

Lemma index_only_ret {A : Type} (a : A) : index_only (mret a : M A).
Proof.
  intros st. exists []. simpl. rewrite app_nil_r.
  split; [reflexivity|]. split; [constructor|reflexivity].
Qed.

Lemma index_only_emit (c : Call) :
  is_timer_start c = false -> index_only (modify (emit c) : M unit).
Proof.
  intros Hc st. exists [c]. simpl.
  split; [reflexivity|]. split; [repeat constructor; exact Hc|reflexivity].
Qed.

Lemma index_only_add (m : Meili) (name pk : string) (items : list Row) :
  index_only (call_add_full_data m name pk items).
Proof.
  intros st. unfold call_add_full_data.
  destruct (add_full_data m name pk items (indexes st)); simpl;
    eexists; (split; [reflexivity|]); (split; [repeat constructor|reflexivity]).
Qed.

Lemma index_only_load (m : Meili) (ss : SyncSettings) (chunks : list (list Row)) (count : Z) :
  index_only (load_chunks m ss chunks count).
Proof.
  revert count. induction chunks as [|items chunks IH]; intros count; simpl.
  - apply index_only_ret.
  - apply index_only_bind; [apply index_only_add|]. intros _. apply IH.
Qed.

Lemma index_only_full_sync (m : Meili) (ss : SyncSettings) (iv : option Z) :
  index_only (full_sync m ss iv).
Proof.
  unfold full_sync.
  apply index_only_bind; [apply index_only_emit; reflexivity|]. intros _.
  apply index_only_bind; [apply index_only_load|]. intros count.
  apply index_only_emit. reflexivity.
Qed.

Lemma index_only_exists (m : Meili) (name : string) :
  index_only (call_index_exists m name).
Proof.
  intros st. unfold call_index_exists.
  destruct (index_exists m name (indexes st)); simpl;
    eexists; (split; [reflexivity|]); (split; [repeat constructor|reflexivity]).
Qed.

Lemma index_only_gate (m : Meili) (ss : SyncSettings) (iv : option Z) :
  index_only (bootstrap_gate m ss iv).
Proof.
  unfold bootstrap_gate. destruct (ss_full ss); [|apply index_only_ret].
  apply index_only_bind; [apply index_only_exists|]. intros [|].
  - apply index_only_ret.
  - apply index_only_full_sync.
Qed.

Lemma bootstrap_target_unfold (ss : SyncSettings) (st : State) (m : Meili)
    (iv : option Z) :
  meili_map st !! ss = Some (m, iv) ->
  bootstrap_target ss st
  = match bootstrap_gate m ss iv st with
    | Ok _ st1 =>
        (if truthy iv
         then _ ← getitem collections_map ss;
              modify (emit (EnsureFuture m ss (default 0 iv)))
         else mret tt) st1
    | Raise err st1 => Raise err st1
    end.
Proof.
  intros Hm. unfold bootstrap_target, bootstrap_gate. unfold_M. rewrite Hm.
  reflexivity.
Qed.

(** X12. The flush timer of a target is started exactly when its
    [insert_interval] is truthy and its bootstrap went through, as the last
    call of the bootstrap: a target with [insert_size] only never gets a
    timer, and a bootstrap that raises starts none.  Whatever happens, the
    bootstrap of a target changes nothing of the Runner but the indexes. *)
Theorem timer_started_after_bootstrap (ss : SyncSettings) (st : State) (m : Meili)
    (iv : option Z) :
  meili_map st !! ss = Some (m, iv) ->
  let o := bootstrap_target ss st in
  let new := drop (length (trace st)) (trace (final o)) in
  runner_fields (final o) = runner_fields st
  /\ filter (fun c => is_timer_start c = true) new
     = (if truthy iv && bool_decide (raised o = None)
        then [EnsureFuture m ss (default 0 iv)] else [])
  /\ (truthy iv = true -> raised o = None ->
      last new = Some (EnsureFuture m ss (default 0 iv))).
Proof.
  intros Hm o new. unfold new, o.
  rewrite (bootstrap_target_unfold ss st m iv Hm).
  destruct (index_only_gate m ss iv st) as (d & Ht & Hf & Hr).
  assert (Hnone : filter (fun c : Call => is_timer_start c = true) d = []).
  { clear Ht. induction Hf as [|c d Hc Hd IH]; [reflexivity|].
    rewrite filter_cons_False by (rewrite Hc; discriminate). exact IH. }
  destruct (bootstrap_gate m ss iv st) as [[] st1|err st1]; simpl in *.
  - destruct (truthy iv) eqn:Hiv; simpl.
    + assert (Hcoll : collections_map st1 = collections_map st)
        by (unfold runner_fields in Hr; congruence).
      unfold_M. rewrite Hcoll.
      destruct (collections_map st !! ss) as [c|]; simpl.
      * rewrite Ht, <- app_assoc, drop_app_length, filter_app, Hnone. simpl.
        split; [exact Hr|]. split; [reflexivity|]. intros _ _. apply last_snoc.
      * rewrite Ht, drop_app_length, Hnone.
        split; [exact Hr|]. split; [reflexivity|]. discriminate.
    + rewrite Ht, drop_app_length, Hnone.
      split; [exact Hr|]. split; [reflexivity|]. discriminate.
  - rewrite Ht, drop_app_length, Hnone, andb_false_r.
    split; [exact Hr|]. split; [reflexivity|]. discriminate.
Qed.

Lemma load_chunks_ok (m : Meili) (ss : SyncSettings) (chunks : list (list Row)) :
  (forall items ix, is_Some (add_full_data m (index_name ss) (ss_pk ss) items ix)) ->
  forall (count : Z) (st : State),
  exists st',
    load_chunks m ss chunks count st
    = Ok (count + Z.of_nat (length (concat chunks))) st'
    /\ trace st' = trace st
         ++ ((fun items => AddFullData m (index_name ss) (ss_pk ss) items true) <$> chunks)
    /\ runner_fields st' = runner_fields st.
Proof.
  intros Hadd. induction chunks as [|items chunks IH]; intros count st.
  - exists st. simpl. rewrite Z.add_0_r, app_nil_r. repeat split.
  - simpl. unfold_M. unfold call_add_full_data.
    destruct (Hadd items (indexes st)) as [ix' ->].
    destruct (IH (count + Z.of_nat (length items))
                (emit (AddFullData m (index_name ss) (ss_pk ss) items true)
                   (set_indexes ix' st))) as (st' & Hrun & Htr & Hf).
    exists st'. rewrite Hrun, Htr, Hf. simpl.
    rewrite length_app, <- app_assoc. split; [f_equal; lia|]. repeat split.
Qed.

(** X13. The full-data load of a target with [full] whose index does not
    exist, when every [add_full_data] goes through: the extraction is asked
    for chunks of [insert_interval] rows, of 10000 when the interval is unset
    or zero; every chunk is written, in order, to the target's index with its
    primary key; the summary counts all the rows; and only then the timer is
    started, if the target has one. *)
Theorem full_sync_loads_every_chunk (ss : SyncSettings) (st : State) (m : Meili)
    (iv : option Z) :
  meili_map st !! ss = Some (m, iv) ->
  ss_full ss = true ->
  index_exists m (index_name ss) (indexes st) = Some false ->
  (forall items ix, is_Some (add_full_data m (index_name ss) (ss_pk ss) items ix)) ->
  (truthy iv = true -> is_Some (collections_map st !! ss)) ->
  let chunks := get_full_data ss (chunk_size iv) in
  (truthy iv = false -> chunk_size iv = 10000)
  /\ (truthy iv = true -> iv = Some (chunk_size iv))
  /\ exists st',
      bootstrap_target ss st = Ok tt st'
      /\ trace st' = trace st
           ++ [IndexExists m (index_name ss) (Some false);
               GetFullData ss (chunk_size iv)]
           ++ ((fun items => AddFullData m (index_name ss) (ss_pk ss) items true)
                 <$> chunks)
           ++ [LogInfo (ss_table ss) (Z.of_nat (length (concat chunks)))]
           ++ (if truthy iv then [EnsureFuture m ss (default 0 iv)] else []).
Proof.
  intros Hm Hfull Hex Hadd Hcoll chunks.
  split; [unfold chunk_size; intros ->; reflexivity|].
  split; [unfold chunk_size; intros Hiv; rewrite Hiv; destruct iv; [reflexivity|discriminate]|].
  rewrite (bootstrap_target_unfold ss st m iv Hm).
  unfold bootstrap_gate. rewrite Hfull. unfold_M. unfold call_index_exists.
  rewrite Hex. simpl. unfold full_sync. unfold_M. simpl.
  destruct (load_chunks_ok m ss chunks Hadd 0
              (emit (GetFullData ss (chunk_size iv))
                 (emit (IndexExists m (index_name ss) (Some false)) st)))
    as (st1 & Hrun & Htr & Hf).
  fold chunks. rewrite Hrun. simpl.
  destruct (truthy iv) eqn:Hiv; simpl.
  - destruct (Hcoll eq_refl) as [c Hc].
    assert (Hc1 : collections_map st1 !! ss = Some c).
    { unfold runner_fields in Hf. simpl in Hf.
      replace (collections_map st1) with (collections_map st) by congruence.
      exact Hc. }
    rewrite Hc1. simpl. eexists. split; [reflexivity|]. simpl. rewrite Htr. simpl.
    rewrite <- !app_assoc. reflexivity.
  - eexists. split; [reflexivity|]. simpl. rewrite Htr. simpl.
    rewrite <- !app_assoc. simpl. rewrite ?app_nil_r. reflexivity.
Qed.

(** ** Runner: [__aenter__] as a whole *)








(** ** Runner: the statistics loop *)




(** X15. A turn of the statistics loop never drops a count: the counters
    are either left as they were, or cleared after [bulk_create] accepted a
    non-empty list of rows; nothing else of the Runner changes; with no
    counter at all nothing is written and no line is logged; and an
    exception of [bulk_create] leaves the loop with the counters in place. *)
Theorem save_stats_never_drops_counts (bulk_create : list SyncLog -> option exn)
    (st : State) :
  let o := save_stats_tick bulk_create st in
  (final o = st
   \/ (final o = set_stats ∅ st
       /\ exists r, o = Ok r (set_stats ∅ st)
                    /\ report_objs r <> []
                    /\ bulk_create (report_objs r) = None))
  /\ (stats st = ∅ ->
      o = Ok {| report_objs := []; report_lines := [] |} st)
  /\ (forall r err,
        collect_stats (tables_map_reverse st) (map_to_list (stats st)) = Some r ->
        bulk_create (report_objs r) = Some err ->
        report_objs r <> [] ->
        o = Raise err st).
Proof.
  intros o. unfold o, save_stats_tick. split; [|split].
  - destruct (collect_stats _ _) as [r|]; [|left; reflexivity].
    destruct (report_objs r) as [|x l] eqn:Hobjs; [left; reflexivity|].
    destruct (bulk_create (x :: l)) eqn:Hbc; [left; reflexivity|].
    right. split; [reflexivity|]. exists r. rewrite Hobjs.
    split; [reflexivity|]. split; [discriminate|exact Hbc].
  - intros ->. rewrite map_to_list_empty. reflexivity.
  - intros r err -> Hbc Hne.
    destruct (report_objs r) as [|x l]; [contradiction|]. rewrite Hbc. reflexivity.
Qed.

End RunnerCoverage.
(** * The properties on the concrete installation *)

Section Instances.

Import Example.

#[local] Abbreviation run_on st steps := (final (run steps (st : State))).

(** C8 on an event of a table no sync names. *)
Lemma unconfigured_table_witness :
  exists st' : State,
    sync_data_iter (QEvent (ev 1 "orders" "o1")) (configured [target_a] [] None)
    = Ok tt st'
    /\ durable st' = None
    /\ current_progress st' = Some 1.
Proof.
  destruct (unconfigured_table_only_moves_marker (ev 1 "orders" "o1")
              (configured [target_a] [] None : State) eq_refl)
    as (st' & Hrun & Hcur & Hdur & _).
  exists st'. split; [exact Hrun|]. split; [rewrite Hdur; reflexivity|exact Hcur].
Defined.

(** C9 on an unbatched target whose apply raises: the event is counted. *)
Lemma stats_count_witness :
  let st : State := configured [target_b] [] (Some 0) in
  let o := process_target (ev 1 "users" "bad") (sync_setting_of target_b, target_b) st in
  raised o = Some IndexError
  /\ stats_count 11 EventType.create st = 0
  /\ stats_count 11 EventType.create (final o) = 1.
Proof.
  intros st o.
  destruct (stats_count_dispatched_events (ev 1 "users" "bad")
              (sync_setting_of target_b) target_b st server None eq_refl)
    as [Hcount Hraise].
  split; [apply (Hraise eq_refl eq_refl eq_refl)|].
  split; [reflexivity|exact Hcount].
Defined.

(** C2 on a target batched by time only: the dispatch loop ends on a
    [TypeError]. *)
Lemma interval_only_witness :
  let st : State := configured [target_c] [] None in
  let o := sync_data [QEvent (ev 1 "users" "a"); QEvent (ev 2 "users" "b")] st in
  raised o = Some TypeError
  /\ buffered (sync_setting_of target_c) (final o) = [ev 1 "users" "a"]
  /\ indexes (final o) = [].
Proof.
  intros st o.
  destruct (interval_only_target_raises (ev 1 "users" "a")
              (sync_setting_of target_c) target_c [] [QEvent (ev 2 "users" "b")]
              st server (Some 5) [] eq_refl eq_refl eq_refl eq_refl eq_refl)
    as (Hraise & Hbatch & _ & Hix & _).
  split; [exact Hraise|]. split; [|exact Hix].
  unfold buffered, o. rewrite Hbatch. reflexivity.
Defined.

(** C5 on a target with [full_sync] whose index holds a document already. *)
Lemma full_sync_gated_witness :
  let st : State := configured [target_f] [("http://meili:7700", "users", "u0")] None in
  exists st' : State,
    bootstrap_target (sync_setting_of target_f) st = Ok tt st'
    /\ indexes st' = indexes st
    /\ trace st' = [IndexExists server "users" (Some true)].
Proof.
  intros st.
  destruct (full_sync_gated_by_index (sync_setting_of target_f) st server None eq_refl)
    as [Hskip _]; [discriminate|].
  destruct (Hskip eq_refl eq_refl) as (st' & Hrun & Hix & Htr).
  exists st'. split; [exact Hrun|]. split; [exact Hix|exact Htr].
Defined.




(** C3 on a sync with both batching parameters: two events, a tick, a third
    event. *)
Lemma batching_defers_applies_witness :
  let steps := [Dispatch (QEvent (ev 1 "users" "a"));
                Dispatch (QEvent (ev 2 "users" "b"));
                Tick server (sync_setting_of target_d);
                Dispatch (QEvent (ev 3 "users" "c"))] in
  let stB : State := final (run steps (configured [target_d] [] None)) in
  let stU : State :=
    final (sync_data (dispatched steps) (configured [unbatch target_d] [] None)) in
  indexes stB = [("http://meili:7700", "users_d", "a"); ("http://meili:7700", "users_d", "b")]
  /\ buffered (sync_setting_of target_d) stB = [ev 3 "users" "c"]
  /\ apply_batch server (default [] (collections_map stB !! sync_setting_of target_d))
       (indexes stB)
     = (indexes stU, true).
Proof.
  intros steps stB stU.
  assert (HB : run steps (configured [target_d] [] None) = Ok tt stB)
    by (vm_compute; reflexivity).
  assert (HU : sync_data (dispatched steps) (configured [unbatch target_d] [] None)
               = Ok tt stU)
    by (vm_compute; reflexivity).
  split; [vm_compute; reflexivity|]. split; [vm_compute; reflexivity|].
  refine (proj1 (batching_defers_applies target_d [] None steps stB stU _ HB HU)).
  intros m key Hin.
  apply elem_of_cons in Hin as [Hin|Hin]; [discriminate|].
  apply elem_of_cons in Hin as [Hin|Hin]; [discriminate|].
  apply elem_of_cons in Hin as [Hin|Hin].
  - injection Hin as -> ->. split; reflexivity.
  - apply elem_of_cons in Hin as [Hin|Hin]; [discriminate|].
    inversion Hin.
Defined.

(** C3, as the design document words it, fails on a sync flushing at three
    events when one event arrives: the immediate path has applied it, the
    batched path holds it. *)
Lemma batched_index_lags :
  ~ batching_transparent target_a ([] : Index) None
      [Dispatch (QEvent (ev 1 "users" "a"))].
Proof.
  unfold batching_transparent. vm_compute. discriminate.
Defined.

(** C7 on two sources. *)
Lemma startup_witness :
  let sc := startup [source1; source2] Scheduler_init in
  spawned sc = [(1, false); (2, false)]
  /\ tasks sc !! 1 = Some 0%nat
  /\ tasks sc !! 2 = Some 1%nat
  /\ cancelled sc = [].
Proof.
  intros sc.
  assert (Hnd : NoDup (source_pk <$> [source1; source2])).
  { simpl. apply NoDup_cons. split; [|apply NoDup_singleton].
    intros Hin. apply list_elem_of_singleton in Hin. discriminate. }
  destruct (startup_tracks_every_source [source1; source2] Hnd) as (Hs & Ht & _ & Hc).
  split; [exact Hs|]. split; [apply (Ht 0%nat source1 eq_refl)|].
  split; [apply (Ht 1%nat source2 eq_refl)|exact Hc].
Defined.

(** C7, as the design document words it, fails on a source whose only sync
    is disabled: it is tracked all the same. *)
Lemma startup_tracks_disabled_source :
  source_enabled [target_off] source1 = false
  /\ tasks (startup [source1] Scheduler_init) !! 1 = Some 0%nat
  /\ ~ startup_tracks_enabled_only [target_off] [source1].
Proof.
  split; [reflexivity|]. split; [reflexivity|].
  intros H. specialize (H source1 (list_elem_of_here _ _)).
  destruct H as [H _].
  assert (Hen : source_enabled [target_off] source1 = true).
  { apply H. exists 0%nat. reflexivity. }
  discriminate Hen.
Defined.

(** C10 on a Scheduler that tracks another source only. *)
Lemma restart_untracked_witness :
  let sc := startup [source1] Scheduler_init in
  let sc' := restart_source source2 true sc in
  tasks sc !! 2 = None
  /\ tasks sc' !! 2 = Some 1%nat
  /\ tasks sc' !! 1 = Some 0%nat
  /\ spawned sc' = [(1, false); (2, true)]
  /\ cancelled sc' = [].
Proof.
  intros sc sc'.
  destruct (restart_untracked_source_starts_it source2 true sc eq_refl)
    as (_ & Ht & Hs & Hc & Hk).
  split; [reflexivity|]. split; [exact Ht|].
  split; [exact (eq_trans (Hk 1 ltac:(discriminate)) eq_refl)|].
  split; [exact Hs|exact Hc].
Defined.

End Instances.

(** * The further properties on the concrete installation *)

Section MoreInstances.

Import Example.

(** X3 on a Scheduler that tracks [source1]. *)
Lemma restart_replaces_witness :
  let sc := startup [source1] Scheduler_init in
  let sc' := restart_source source1 true sc in
  tasks sc !! 1 = Some 0%nat
  /\ tasks sc' !! 1 = Some 1%nat
  /\ cancelled sc' = [0%nat]
  /\ running sc' = [1%nat].
Proof.
  intros sc sc'.
  destruct (restart_replaces_tracked_task source1 true sc 0%nat
              (registry_ok_startup [source1] _ registry_ok_init) eq_refl)
    as (Ht & _ & _ & Hc & _).
  split; [reflexivity|]. split; [exact Ht|]. split; [exact Hc|reflexivity].
Defined.

(** X4 on a second [startup] with the same source. *)
Lemma startup_twice_witness :
  let sc := startup [source1] Scheduler_init in
  let sc' := startup [source1] sc in
  tasks sc !! 1 = Some 0%nat
  /\ tasks sc' !! 1 = Some 1%nat
  /\ 0%nat ∈ running sc'
  /\ cancelled sc' = [].
Proof.
  intros sc sc'.
  destruct (startup_leaves_old_task_running [source1] source1 sc 0%nat
              (registry_ok_startup [source1] _ registry_ok_init)
              (list_elem_of_here _ _) eq_refl)
    as (Hrun & Hc & _).
  split; [reflexivity|]. split; [reflexivity|]. split; [exact Hrun|exact Hc].
Defined.

(** X7 on the two targets of table ["users"]. *)
Lemma fan_out_counts_witness :
  let st : State := configured [target_a; target_b] [] None in
  let e := ev 1 "users" "a" in
  exists st' : State,
    sync_data_iter (QEvent e) st = Ok tt st'
    /\ stats_count 10 EventType.create st' = 1
    /\ stats_count 11 EventType.create st' = 1.
Proof.
  intros st e.
  assert (Hrun : sync_data_iter (QEvent e) st = Ok tt (final (sync_data_iter (QEvent e) st)))
    by (vm_compute; reflexivity).
  assert (Hnd : NoDup (sync_pk <$> (default [] (tables_sync_settings_map st !! ev_table e)).*2)).
  { vm_compute. apply NoDup_cons. split; [|apply NoDup_singleton].
    intros Hin. apply list_elem_of_singleton in Hin. discriminate. }
  pose proof (fan_out_counts_every_target e st _ Hnd Hrun) as Hc.
  eexists. split; [exact Hrun|]. split.
  - apply (Hc (sync_setting_of target_a, target_a)). vm_compute. apply list_elem_of_here.
  - apply (Hc (sync_setting_of target_b, target_b)). vm_compute.
    apply list_elem_of_further, list_elem_of_here.
Defined.

(** X9 on the target flushing at three events, with two events buffered. *)
Lemma batch_below_threshold_witness :
  let st0 : State := configured [target_a] [] None in
  let st := final (sync_data [QEvent (ev 1 "users" "a"); QEvent (ev 2 "users" "b")] st0) in
  let e := ev 3 "users" "c" in
  let st' := final (process_target e (sync_setting_of target_a, target_a)
                      (dequeued (QEvent e) st)) in
  buffered (sync_setting_of target_a) st = [ev 1 "users" "a"; ev 2 "users" "b"]
  /\ buffered (sync_setting_of target_a) st' = []
  /\ durable st' = Some 3.
Proof.
  intros st0 st e st'.
  split; [vm_compute; reflexivity|].
  destruct (batch_stays_below_threshold e (sync_setting_of target_a) target_a
              (dequeued (QEvent e) st) st'
              [(sync_setting_of target_a, ev 1 "users" "a");
               (sync_setting_of target_a, ev 2 "users" "b")] 3)
    as [(_ & Hlt & _)|(Hc & _ & Hd & _)];
    try (vm_compute; reflexivity).
  - vm_compute in Hlt. discriminate.
  - split; [unfold buffered; rewrite Hc; reflexivity|]. rewrite Hd. reflexivity.
Defined.

(** X12 on a target with an interval and no full sync. *)
Lemma timer_started_witness :
  let st : State := configured [target_d] [] None in
  let o := bootstrap_target (sync_setting_of target_d) st in
  raised o = None
  /\ trace (final o) = [EnsureFuture server (sync_setting_of target_d) 5].
Proof.
  intros st o.
  destruct (timer_started_after_bootstrap (sync_setting_of target_d) st server (Some 5)
              eq_refl) as (_ & _ & Hlast).
  split; [reflexivity|].
  specialize (Hlast eq_refl eq_refl). vm_compute. reflexivity.
Defined.

(** X13 on the target with [full_sync], its index still missing. *)
Lemma full_sync_loads_witness :
  let st : State := configured [target_f] [] None in
  exists st' : State,
    bootstrap_target (sync_setting_of target_f) st = Ok tt st'
    /\ trace st' =
         [IndexExists server "users" (Some false);
          GetFullData (sync_setting_of target_f) 10000;
          AddFullData server "users" "id" ["u1"; "u2"] true;
          AddFullData server "users" "id" ["u3"] true;
          LogInfo "users" 3].
Proof.
  intros st.
  assert (Hm : meili_map st !! sync_setting_of target_f = Some (server, None))
    by (vm_compute; reflexivity).
  assert (Hex : index_exists server (index_name (sync_setting_of target_f)) (indexes st)
                = Some false) by (vm_compute; reflexivity).
  destruct (full_sync_loads_every_chunk (sync_setting_of target_f) st server None
              Hm eq_refl Hex) as (_ & _ & st' & Hrun & Htr).
  - intros items ix. eexists. reflexivity.
  - discriminate.
  - exists st'. split; [exact Hrun|exact Htr].
Defined.



End MoreInstances.
